(** * Theatre API: availability, reservations and filtered listings

    A shallow embedding of the theatre booking service
    ([theatre/models.py], [theatre/views.py]) together with the properties
    of its reservation/availability subsystem.

    Conventions.
    - Python [int] values and primary keys are [Z].
    - A database table is the list of its rows in insertion order.
    - A Python [dict] with string keys ([request.query_params], the
      serializer's [validated_data]) is a [gmap string _].
    - A call that can raise returns a [Result]; handlers that write run in
      the state monad [Handler] over the [Store]. *)

From Stdlib Require Import ZArith Ascii String.
From stdpp Require Import base option list sorting gmap strings pretty.

Local Open Scope string_scope.
Local Open Scope Z_scope.

(** ** Exceptions and results *)

(** Why a payload was rejected (the field-level message of a 400 response). *)
Inductive Invalid :=
  | not_an_integer
  | integer_out_of_range
  | blank_field
  | too_long
  | missing_field
  | unknown_id
  | not_unique
  | seat_out_of_bounds
  | seat_taken.

(** The exceptions a request can end with.  [ValidationError], [NotFound]
    and [PermissionDenied] are the API's own error responses; [ValueError]
    is Python's builtin exception, which no handler of the service catches. *)
Inductive Exn :=
  | ValidationError (why : Invalid)
  | NotFound
  | PermissionDenied
  | ValueError.

Inductive Result (A : Type) :=
  | Ok (a : A)
  | Raise (e : Exn).
Arguments Ok {A} a.
Arguments Raise {A} e.

#[global] Instance Invalid_eq_dec : EqDecision Invalid.
Proof. solve_decision. Defined.
#[global] Instance Exn_eq_dec : EqDecision Exn.
Proof. solve_decision. Defined.

#[global] Instance Result_ret : MRet Result := @Ok.
#[global] Instance Result_bind : MBind Result := fun A B f r =>
  match r with
  | Ok a => f a
  | Raise e => Raise e
  end.
#[global] Instance Result_fmap : FMap Result := fun A B f r =>
  match r with
  | Ok a => Ok (f a)
  | Raise e => Raise e
  end.

Definition is_validation_error {A} (r : Result A) : Prop :=
  exists why, r = Raise (ValidationError why).

(** [[f(x) for x in xs]] where [f] may raise: the first exception wins. *)
Fixpoint traverse {A B} (f : A -> Result B) (xs : list A) : Result (list B) :=
  match xs with
  | [] => Ok []
  | x :: xs' => y ← f x; ys ← traverse f xs'; Ok (y :: ys)
  end.

(** ** Python builtins used by the views *)

Module Py.

(** [str.isspace] on the ASCII range. *)
Definition isspace (c : ascii) : bool :=
  let n := N_of_ascii c in
  ((9 <=? n) && (n <=? 13) || (28 <=? n) && (n <=? 32))%N.

Fixpoint lstrip (s : string) : string :=
  match s with
  | String c s' => if isspace c then lstrip s' else s
  | EmptyString => EmptyString
  end.

Fixpoint rev_onto (s acc : string) : string :=
  match s with
  | String c s' => rev_onto s' (String c acc)
  | EmptyString => acc
  end.

Definition rstrip (s : string) : string :=
  rev_onto (lstrip (rev_onto s "")) "".

Definition strip (s : string) : string := rstrip (lstrip s).

Definition digit (c : ascii) : option Z :=
  let n := N_of_ascii c in
  if ((48 <=? n) && (n <=? 57))%N then Some (Z.of_N n - 48) else None.

(** Decimal digits, where single underscores may separate digits
    ([int("1_000") == 1000]).  [acc] is [None] until a first digit is
    read; [sep] holds when the previous character was an underscore. *)
Fixpoint digits (acc : option Z) (sep : bool) (s : string) : option Z :=
  match s with
  | EmptyString => if sep then None else acc
  | String c s' =>
      match digit c with
      | Some d => digits (Some (10 * default 0 acc + d)) false s'
      | None =>
          if (Ascii.eqb c "_" && negb sep && bool_decide (is_Some acc))%bool
          then digits acc true s'
          else None
      end
  end.

(** The number of digit characters of a string. *)
Fixpoint count_digits (s : string) : nat :=
  match s with
  | EmptyString => 0
  | String c s' =>
      match digit c with
      | Some _ => S (count_digits s')
      | None => count_digits s'
      end
  end.

(** [sys.get_int_max_str_digits()]: longer numerals are refused. *)
Definition max_str_digits : nat := 4300.

(** [int(s)] for a [str] argument, base 10 (ASCII input). *)
Definition int (s : string) : Result Z :=
  let body sign t :=
    match digits None false t with
    | Some n =>
        if bool_decide (count_digits t ≤ max_str_digits)%nat
        then Ok (sign * n) else Raise ValueError
    | None => Raise ValueError
    end in
  match strip s with
  | String "-" t => body (-1) t
  | String "+" t => body 1 t
  | t => body 1 t
  end.

(** [s.split(sep)] for a one-character separator: never empty. *)
Fixpoint split (sep : ascii) (s : string) : list string :=
  match s with
  | EmptyString => [EmptyString]
  | String c s' =>
      if Ascii.eqb c sep then EmptyString :: split sep s'
      else match split sep s' with
           | w :: ws => String c w :: ws
           | [] => [String c EmptyString]
           end
  end.

(** Truth value of an optional string: [None] and [""] are falsy. *)
Definition truthy (v : option string) : option string :=
  match v with
  | Some EmptyString => None
  | _ => v
  end.

End Py.

(** ** [datetime]: calendar dates and [strptime(_, "%Y-%m-%d")] *)

Module Datetime.

Record date := Date { year : Z; month : Z; day : Z }.

(** A [datetime] in the service's time zone: a calendar date and the
    seconds elapsed since midnight. *)
Record datetime := DateTime { on : date; seconds : Z }.

#[global] Instance date_eq_dec : EqDecision date.
Proof. solve_decision. Defined.
#[global] Instance datetime_eq_dec : EqDecision datetime.
Proof. solve_decision. Defined.

Definition is_leap (y : Z) : bool :=
  (y mod 4 =? 0) && (negb (y mod 100 =? 0) || (y mod 400 =? 0)).

Definition days_in_month (y m : Z) : Z :=
  if m =? 2 then (if is_leap y then 29 else 28)
  else if (m =? 4) || (m =? 6) || (m =? 9) || (m =? 11) then 30
  else 31.

(** The [date(year, month, day)] constructor. *)
Definition make_date (y m d : Z) : Result date :=
  if (1 <=? y) && (y <=? 9999) && (1 <=? m) && (m <=? 12)
     && (1 <=? d) && (d <=? days_in_month y m)
  then Ok (Date y m d)
  else Raise ValueError.

(** A regular-expression piece: every way it matches at the start of
    the input, preferred match first, with the number read and the
    rest of the input. *)
Definition piece := string -> list (Z * string).

Definition lit (c : ascii) : piece := fun s =>
  match s with
  | String c' r => if Ascii.eqb c c' then [(0, r)] else []
  | EmptyString => []
  end.

(** One character whose digit value lies in [lo..hi]. *)
Definition dig (lo hi : Z) : piece := fun s =>
  match s with
  | String c r =>
      match Py.digit c with
      | Some d => if (lo <=? d) && (d <=? hi) then [(d, r)] else []
      | None => []
      end
  | EmptyString => []
  end.

(** Two pieces in sequence, read as a two-digit number. *)
Definition two (p q : piece) : piece := fun s =>
  '(a, r) ← p s; '(b, r') ← q r; [(10 * a + b, r')].

Definition alt (ps : list piece) : piece := fun s => p ← ps; p s.

(** [%Y] is [\d\d\d\d]. *)
Definition re_Y : piece := fun s =>
  '(a, r) ← two (dig 0 9) (dig 0 9) s;
  '(b, r') ← two (dig 0 9) (dig 0 9) r;
  [(100 * a + b, r')].

(** [%m] is [1[0-2]|0[1-9]|[1-9]]. *)
Definition re_m : piece :=
  alt [two (dig 1 1) (dig 0 2); two (dig 0 0) (dig 1 9); dig 1 9].

(** [%d] is [3[01]|[12]\d|0[1-9]|[1-9]| [1-9]]. *)
Definition re_d : piece :=
  alt [two (dig 3 3) (dig 0 1); two (dig 1 2) (dig 0 9);
       two (dig 0 0) (dig 1 9); dig 1 9; two (lit " ") (dig 1 9)].

(** [datetime.strptime(s, "%Y-%m-%d").date()]: the first match of the
    compiled format at the start of [s] must consume all of [s], and
    the fields must form a calendar date. *)
Definition strptime_date (s : string) : Result date :=
  let found :=
    '(y, r1) ← re_Y s; '(_, r2) ← lit "-" r1;
    '(m, r3) ← re_m r2; '(_, r4) ← lit "-" r3;
    '(d, r5) ← re_d r4; [(y, m, d, r5)] in
  match found with
  | (y, m, d, EmptyString) :: _ => make_date y m d
  | _ => Raise ValueError
  end.

End Datetime.

(** ** Database lookups *)

Module Lookup.

Definition lower_char (c : ascii) : ascii :=
  let n := N_of_ascii c in
  if ((65 <=? n) && (n <=? 90))%N then ascii_of_N (n + 32) else c.

Fixpoint lower (s : string) : string :=
  match s with
  | String c s' => String (lower_char c) (lower s')
  | EmptyString => EmptyString
  end.

(** [needle] occurs in [hay] at some position. *)
Fixpoint contains (needle hay : string) : bool :=
  String.prefix needle hay ||
  match hay with
  | String _ hay' => contains needle hay'
  | EmptyString => false
  end.

(** The [__icontains] lookup (the pattern's wildcards are escaped, so
    it is a plain substring test after case folding). *)
Definition icontains (value pattern : string) : bool :=
  contains (lower pattern) (lower value).

(** The [__in] lookup. *)
Definition in_ (value : Z) (choices : list Z) : bool :=
  bool_decide (value ∈ choices).

End Lookup.

(** ** Models ([theatre/models.py]) *)

Module TheatreHall.
Record t := Make { id : Z; name : string; rows : Z; seats_in_row : Z }.

Definition capacity (self : t) : Z := rows self * seats_in_row self.
End TheatreHall.

Module Genre.
Record t := Make { id : Z; name : string }.
End Genre.

Module Actor.
Record t := Make { id : Z; first_name : string; last_name : string }.

Definition full_name (self : t) : string :=
  first_name self +:+ " " +:+ last_name self.
End Actor.

(** The many-to-many fields [genres] and [actors] of a play live in the
    link tables [play_genres] and [play_actors] of the store. *)
Module Play.
Record t := Make
  { id : Z; title : string; description : string; image : option string }.

#[global] Instance eq_dec : EqDecision t.
Proof. solve_decision. Defined.
End Play.

Module Performance.
Record t := Make
  { id : Z; play : Z; theatre_hall : Z; show_time : Datetime.datetime }.

#[global] Instance eq_dec : EqDecision t.
Proof. solve_decision. Defined.
End Performance.

Module Reservation.
(** Modelled from the spec: the [Reservation] model, which [theatre/views.py]
    imports from [theatre/models.py] but whose class is not part of the
    sources at hand.  Spec: [{id, created_at, user: owning user (required)}]. *)
Record t := Make { id : Z; created_at : Datetime.datetime; user : Z }.

#[global] Instance eq_dec : EqDecision t.
Proof. solve_decision. Defined.
End Reservation.

Module Ticket.
(** Modelled from the spec: the [Ticket] model, registered in
    [theatre/admin.py] and counted by the [tickets] relation in
    [theatre/views.py], but whose class is not part of the sources at hand.
    Spec: [{id, row: int, seat: int, performance, reservation}]. *)
Record t := Make
  { id : Z; row : Z; seat : Z; performance : Z; reservation : Z }.

#[global] Instance eq_dec : EqDecision t.
Proof. solve_decision. Defined.

(** The seat a ticket claims: [(performance, row, seat)]. *)
Definition coords (self : t) : Z * Z * Z :=
  (performance self, row self, seat self).
End Ticket.

(** ** The store *)

(** A row of a many-to-many link table: [(play_id, other_id)]. *)
Definition Link : Type := Z * Z.

Record Store := MkStore
  { halls : list TheatreHall.t;
    genres : list Genre.t;
    actors : list Actor.t;
    plays : list Play.t;
    play_genres : list Link;
    play_actors : list Link;
    performances : list Performance.t;
    reservations : list Reservation.t;
    tickets : list Ticket.t;
    (** last primary key handed out, per table *)
    sequences : gmap string Z }.

Definition empty_store : Store :=
  MkStore [] [] [] [] [] [] [] [] [] ∅.

Definition get_hall (st : Store) (pk : Z) : option TheatreHall.t :=
  List.find (fun h => TheatreHall.id h =? pk) (halls st).

Definition get_performance (st : Store) (pk : Z) : option Performance.t :=
  List.find (fun p => Performance.id p =? pk) (performances st).

(** The tickets that reference a performance. *)
Definition tickets_of (st : Store) (pk : Z) : list Ticket.t :=
  filter (fun t => Ticket.performance t = pk) (tickets st).

(** ** Request handlers as a state-and-exception monad *)

(** A handler runs against the store and either returns or raises; the
    store it leaves behind holds whatever it wrote before raising. *)
Definition Handler (A : Type) : Type := Store -> Store * Result A.

#[global] Instance Handler_ret : MRet Handler := fun A a st => (st, Ok a).
#[global] Instance Handler_bind : MBind Handler := fun A B f h st =>
  match h st with
  | (st', Ok a) => f a st'
  | (st', Raise e) => (st', Raise e)
  end.

Definition raise {A} (e : Exn) : Handler A := fun st => (st, Raise e).
Definition lift {A} (r : Result A) : Handler A := fun st => (st, r).
Definition read {A} (f : Store -> A) : Handler A := fun st => (st, Ok (f st)).
Definition write (f : Store -> Store) : Handler unit :=
  fun st => (f st, Ok tt).

(** [with transaction.atomic(): ...]: when the body raises, every write it
    made is rolled back and the exception propagates. *)
Definition atomic {A} (body : Handler A) : Handler A := fun st =>
  match body st with
  | (st', Ok a) => (st', Ok a)
  | (_, Raise e) => (st, Raise e)
  end.

(** The next primary key of a table. *)
Definition nextval (table : string) : Handler Z := fun st =>
  let pk := default 0 (sequences st !! table) + 1 in
  (MkStore (halls st) (genres st) (actors st) (plays st) (play_genres st)
     (play_actors st) (performances st) (reservations st) (tickets st)
     (<[table := pk]> (sequences st)),
   Ok pk).

(** [for x in xs: body(x)]. *)
Fixpoint for_each {A} (body : A -> Handler unit) (xs : list A) : Handler unit :=
  match xs with
  | [] => mret tt
  | x :: xs' => _ ← body x; for_each body xs'
  end.

(** Table writes. *)
Definition insert_hall (h : TheatreHall.t) (st : Store) : Store :=
  MkStore (halls st ++ [h]) (genres st) (actors st) (plays st) (play_genres st)
    (play_actors st) (performances st) (reservations st) (tickets st)
    (sequences st).

Definition insert_genre (g : Genre.t) (st : Store) : Store :=
  MkStore (halls st) (genres st ++ [g]) (actors st) (plays st) (play_genres st)
    (play_actors st) (performances st) (reservations st) (tickets st)
    (sequences st).

Definition insert_actor (a : Actor.t) (st : Store) : Store :=
  MkStore (halls st) (genres st) (actors st ++ [a]) (plays st) (play_genres st)
    (play_actors st) (performances st) (reservations st) (tickets st)
    (sequences st).

Definition set_plays (ps : list Play.t) (gs as_ : list Link) (st : Store)
    : Store :=
  MkStore (halls st) (genres st) (actors st) ps gs as_
    (performances st) (reservations st) (tickets st) (sequences st).

Definition set_performances (ps : list Performance.t) (st : Store) : Store :=
  MkStore (halls st) (genres st) (actors st) (plays st) (play_genres st)
    (play_actors st) ps (reservations st) (tickets st) (sequences st).

Definition set_tickets (ts : list Ticket.t) (st : Store) : Store :=
  MkStore (halls st) (genres st) (actors st) (plays st) (play_genres st)
    (play_actors st) (performances st) (reservations st) ts (sequences st).

Definition insert_reservation (r : Reservation.t) (st : Store) : Store :=
  MkStore (halls st) (genres st) (actors st) (plays st) (play_genres st)
    (play_actors st) (performances st) (reservations st ++ [r]) (tickets st)
    (sequences st).

(** ** Serializers *)

(** A scalar of a JSON payload. *)
Inductive Raw :=
  | RInt (z : Z)
  | RStr (s : string)
  | RNull.

Module Fields.

(** [re.sub(r"\.0*\s*$", "", s)]: a trailing decimal point followed by
    zeros only (and then blanks) is dropped. *)
Fixpoint drop_zeros (s : string) : string :=
  match s with
  | String "0" s' => drop_zeros s'
  | _ => s
  end.

Definition re_decimal_sub (s : string) : string :=
  match drop_zeros (Py.lstrip (Py.rev_onto s "")) with
  | String "." r => Py.rev_onto r ""
  | _ => s
  end.

Definition MAX_STRING_LENGTH : nat := 1000.

(** What the payload value reads as: an integer, or a string of at most
    [MAX_STRING_LENGTH] characters that [int] reads once [re_decimal]
    is removed. *)
Definition to_internal_value (v : Raw) : Result Z :=
  match v with
  | RInt z => Ok z
  | RStr s =>
      if bool_decide (String.length s ≤ MAX_STRING_LENGTH)%nat then
        match Py.int (re_decimal_sub s) with
        | Ok z => Ok z
        | Raise _ => Raise (ValidationError not_an_integer)
        end
      else Raise (ValidationError too_long)
  | RNull => Raise (ValidationError missing_field)
  end.

(** The serializer field of a model [IntegerField()]: the value must
    read as an integer within the range of the database column.  The
    model field carries no other validator. *)
Definition integer_field (v : Raw) : Result Z :=
  n ← to_internal_value v;
  if (-2147483648 <=? n) && (n <=? 2147483647) then Ok n
  else Raise (ValidationError integer_out_of_range).

(** The serializer field of a model [CharField(max_length=n)]. *)
Definition char_field (max_length : nat) (s : string) : Result string :=
  let s := Py.strip s in
  if bool_decide (s = "") then Raise (ValidationError blank_field)
  else if bool_decide (String.length s ≤ max_length)%nat then Ok s
  else Raise (ValidationError too_long).

(** A primary-key reference must name an existing row. *)
Definition related_field (pks : list Z) (pk : Z) : Result Z :=
  if bool_decide (pk ∈ pks) then Ok pk
  else Raise (ValidationError unknown_id).

End Fields.

(** [theatre/serializers.py] is not part of the sources at hand.  The
    serializers of the catalog, the halls and the performances are taken
    to be the model serializers of their models: each validates the fields
    as [theatre/models.py] declares them and creates the row. *)
Module TheatreHallSerializer.

Record Payload := MkPayload { name : string; rows : Raw; seats_in_row : Raw }.

(** Modelled from the spec: the missing [TheatreHallSerializer], as the
    serializer of the model's fields [name = CharField(max_length=255)],
    [rows = IntegerField()] and [seats_in_row = IntegerField()]. *)
Definition is_valid (data : Payload) : Result (string * Z * Z) :=
  name ← Fields.char_field 255 (name data);
  rows ← Fields.integer_field (rows data);
  seats_in_row ← Fields.integer_field (seats_in_row data);
  Ok (name, rows, seats_in_row).

(** Modelled from the spec: the missing [TheatreHallSerializer] creates
    the hall row. *)
Definition save (validated_data : string * Z * Z) : Handler TheatreHall.t :=
  let '(name, rows, seats_in_row) := validated_data in
  pk ← nextval "theatre_theatrehall";
  let hall := TheatreHall.Make pk name rows seats_in_row in
  _ ← write (insert_hall hall);
  mret hall.

End TheatreHallSerializer.

Module GenreSerializer.

(** Modelled from the spec: the missing [GenreSerializer]; the name is
    unique ([name = CharField(max_length=255, unique=True)]). *)
Definition is_valid (st : Store) (name : string) : Result string :=
  name ← Fields.char_field 255 name;
  if bool_decide (name ∈ Genre.name <$> genres st)
  then Raise (ValidationError not_unique)
  else Ok name.

(** Modelled from the spec: the missing [GenreSerializer] creates the
    genre row. *)
Definition save (name : string) : Handler Genre.t :=
  pk ← nextval "theatre_genre";
  let genre := Genre.Make pk name in
  _ ← write (insert_genre genre);
  mret genre.

End GenreSerializer.

Module ActorSerializer.

(** Modelled from the spec: the missing [ActorSerializer]. *)
Definition is_valid (first_name last_name : string)
    : Result (string * string) :=
  first_name ← Fields.char_field 255 first_name;
  last_name ← Fields.char_field 255 last_name;
  Ok (first_name, last_name).

(** Modelled from the spec: the missing [ActorSerializer] creates the
    actor row. *)
Definition save (validated_data : string * string) : Handler Actor.t :=
  pk ← nextval "theatre_actor";
  let actor := Actor.Make pk validated_data.1 validated_data.2 in
  _ ← write (insert_actor actor);
  mret actor.

End ActorSerializer.

Module PlaySerializer.

Definition genre_pks (st : Store) : list Z := Genre.id <$> genres st.
Definition actor_pks (st : Store) : list Z := Actor.id <$> actors st.

Record Payload := MkPayload
  { title : string; description : string;
    genres : list Z; actors : list Z }.

(** Modelled from the spec: the missing [PlaySerializer]; createPlay
    validates that the referenced genre and actor ids exist. *)
Definition is_valid (st : Store) (data : Payload) : Result Payload :=
  title ← Fields.char_field 255 (title data);
  genres ← traverse (Fields.related_field (genre_pks st)) (genres data);
  actors ← traverse (Fields.related_field (actor_pks st)) (actors data);
  Ok (MkPayload title (description data) genres actors).

(** The link rows of one play: a many-to-many field holds each related
    row once. *)
Definition links (pk : Z) (ids : list Z) : list Link :=
  (fun other => (pk, other)) <$> remove_dups ids.

(** Modelled from the spec: the missing [PlaySerializer] creates the
    play row and its link rows. *)
Definition create (data : Payload) : Handler Play.t :=
  pk ← nextval "theatre_play";
  let play := Play.Make pk (title data) (description data) None in
  _ ← write (fun st =>
        set_plays (plays st ++ [play])
          (play_genres st ++ links pk (genres data))
          (play_actors st ++ links pk (actors data)) st);
  mret play.

(** Modelled from the spec: the missing [PlaySerializer] rewrites the
    play row and replaces its link rows. *)
Definition update (instance : Play.t) (data : Payload) : Handler Play.t :=
  let pk := Play.id instance in
  let play := Play.Make pk (title data) (description data)
                (Play.image instance) in
  let others (ls : list Link) := filter (fun l => l.1 ≠ pk) ls in
  _ ← write (fun st =>
        set_plays
          ((fun p => if bool_decide (Play.id p = pk) then play else p)
             <$> plays st)
          (others (play_genres st) ++ links pk (genres data))
          (others (play_actors st) ++ links pk (actors data)) st);
  mret play.

End PlaySerializer.

Module PerformanceSerializer.

(** The fields of a (partial) update; a create or full update gives all. *)
Record Payload := MkPayload
  { play : option Z; theatre_hall : option Z;
    show_time : option Datetime.datetime }.

Definition required {A} (v : option A) : Result A :=
  match v with
  | Some a => Ok a
  | None => Raise (ValidationError missing_field)
  end.

Definition optional {A} (f : A -> Result A) (v : option A)
    : Result (option A) :=
  match v with
  | Some a => Some <$> f a
  | None => Ok None
  end.

(** Modelled from the spec: the missing [PerformanceSerializer];
    createPerformance validates that both references exist. *)
Definition is_valid (st : Store) (data : Payload) : Result Payload :=
  play ← optional (Fields.related_field (Play.id <$> plays st)) (play data);
  theatre_hall ←
    optional (Fields.related_field (TheatreHall.id <$> halls st))
      (theatre_hall data);
  Ok (MkPayload play theatre_hall (show_time data)).

(** Modelled from the spec: the missing [PerformanceSerializer] creates
    the performance row. *)
Definition create (data : Payload) : Handler Performance.t :=
  play ← lift (required (play data));
  theatre_hall ← lift (required (theatre_hall data));
  show_time ← lift (required (show_time data));
  pk ← nextval "theatre_performance";
  let performance := Performance.Make pk play theatre_hall show_time in
  _ ← write (fun st => set_performances (performances st ++ [performance]) st);
  mret performance.

(** Modelled from the spec: the missing [PerformanceSerializer] rewrites
    the fields that were sent; the spec gives updatePerformance as a full
    or partial update of [{play, theatre_hall, show_time}]. *)
Definition update (instance : Performance.t) (data : Payload)
    : Handler Performance.t :=
  let pk := Performance.id instance in
  let performance :=
    Performance.Make pk
      (default (Performance.play instance) (play data))
      (default (Performance.theatre_hall instance) (theatre_hall data))
      (default (Performance.show_time instance) (show_time data)) in
  _ ← write (fun st =>
        set_performances
          ((fun p => if bool_decide (Performance.id p = pk)
                     then performance else p) <$> performances st) st);
  mret performance.

End PerformanceSerializer.

(** Modelled from the spec: ticket validation and the reservation
    serializer, whose classes ([Ticket] in [theatre/models.py],
    [ReservationSerializer] in [theatre/serializers.py]) are not part of
    the sources at hand.  Spec, createReservation:
    1. validate every ticket's (row, seat) against its performance's hall
       bounds;
    2. validate that no two tickets of the request collide with each
       other, and none collides with a persisted ticket;
    3. persist the reservation and all tickets as a single atomic unit;
    4. the owner is the user passed by the view. *)
Module ReservationSerializer.

(** The seats already sold. *)
Definition sold_seats (st : Store) : list (Z * Z * Z) :=
  Ticket.coords <$> tickets st.

Definition insert_ticket (t : Ticket.t) (st : Store) : Store :=
  set_tickets (tickets st ++ [t]) st.

Record TicketData := MkTicket { row : Z; seat : Z; performance : Z }.

Definition coords (t : TicketData) : Z * Z * Z :=
  (performance t, row t, seat t).

(** The request body: the tickets, and a [user] entry when the client
    sent one. *)
Record Payload := MkPayload { user : option Z; tickets : list TicketData }.

(** A value of the [validated_data] dict. *)
Inductive Field :=
  | FUser (pk : Z)
  | FTickets (ts : list TicketData).

(** Modelled from the spec: the missing ticket validation, step 1:
    [1 <= row <= rows] and [1 <= seat <= seats_in_row] in the hall of the
    ticket's performance; an unknown performance id is invalid. *)
Definition validate_ticket (st : Store) (t : TicketData) : Result unit :=
  match get_performance st (performance t) with
  | None => Raise (ValidationError unknown_id)
  | Some p =>
      match get_hall st (Performance.theatre_hall p) with
      | None => Raise (ValidationError unknown_id)
      | Some hall =>
          if (1 <=? row t) && (row t <=? TheatreHall.rows hall)
             && (1 <=? seat t) && (seat t <=? TheatreHall.seats_in_row hall)
          then Ok tt
          else Raise (ValidationError seat_out_of_bounds)
      end
  end.

(** Modelled from the spec: the missing ticket validation, step 2: no
    ticket is on a seat already sold or already requested by an earlier
    ticket of the same request. *)
Fixpoint validate_seats (taken : list (Z * Z * Z)) (ts : list TicketData)
    : Result unit :=
  match ts with
  | [] => Ok tt
  | t :: ts' =>
      if bool_decide (coords t ∈ taken)
      then Raise (ValidationError seat_taken)
      else validate_seats (coords t :: taken) ts'
  end.

(** Modelled from the spec: the missing [ReservationSerializer]
    validation; all validation happens before any persistence.  The
    client's [user] entry, if any, is carried into [validated_data]:
    whether or not the serializer exposes the field, the view's own [user]
    replaces it (see [save]). *)
Definition is_valid (st : Store) (data : Payload)
    : Result (gmap string Field) :=
  _ ← traverse (validate_ticket st) (tickets data);
  _ ← validate_seats (sold_seats st) (tickets data);
  Ok (<["tickets" := FTickets (tickets data)]>
        (match user data with
         | Some u => {["user" := FUser u]}
         | None => ∅
         end)).

(** Modelled from the spec: the missing [Ticket] table with its
    uniqueness constraint; [Ticket.objects.create(...)] is refused by the
    store when [(performance, row, seat)] is taken. *)
Definition create_ticket (reservation : Reservation.t) (t : TicketData)
    : Handler unit :=
  taken ← read sold_seats;
  if bool_decide (coords t ∈ taken) then raise (ValidationError seat_taken)
  else
    pk ← nextval "theatre_ticket";
    write (insert_ticket
             (Ticket.Make pk (row t) (seat t) (performance t)
                (Reservation.id reservation))).

(** Modelled from the spec: the missing [ReservationSerializer.create],
    step 3: the reservation and its tickets, in one transaction. *)
Definition create (now : Datetime.datetime)
    (validated_data : gmap string Field) : Handler Reservation.t :=
  atomic (
    user ← lift match validated_data !! "user" with
                | Some (FUser pk) => Ok pk
                | _ => Raise (ValidationError missing_field)
                end;
    tickets_data ← lift match validated_data !! "tickets" with
                        | Some (FTickets ts) => Ok ts
                        | _ => Raise (ValidationError missing_field)
                        end;
    pk ← nextval "theatre_reservation";
    let reservation := Reservation.Make pk now user in
    _ ← write (insert_reservation reservation);
    _ ← for_each (create_ticket reservation) tickets_data;
    mret reservation).

(** [serializer.save(key=value, ...)]: the keyword arguments are merged over
    the validated data, then the row is created. *)
Definition save (now : Datetime.datetime)
    (validated_data kwargs : gmap string Field) : Handler Reservation.t :=
  create now (kwargs ∪ validated_data).

End ReservationSerializer.

(** ** Views ([theatre/views.py]) *)

(** [CreateModelMixin.create]: validate, then [perform_create]. *)
Definition create_with {D V A} (is_valid : Store -> D -> Result V)
    (perform_create : V -> Handler A) (data : D) : Handler A :=
  validated_data ← (fun st => (st, is_valid st data));
  perform_create validated_data.

Module GenreViewSet.
Definition queryset (st : Store) : list Genre.t := genres st.
Definition list_ := queryset.
Definition create : string -> Handler Genre.t :=
  create_with GenreSerializer.is_valid GenreSerializer.save.
End GenreViewSet.

Module ActorViewSet.
Definition queryset (st : Store) : list Actor.t := actors st.
Definition list_ := queryset.
Definition create (first_name last_name : string) : Handler Actor.t :=
  create_with (fun _ _ => ActorSerializer.is_valid first_name last_name)
    ActorSerializer.save tt.
End ActorViewSet.

Module TheatreHallViewSet.
Definition queryset (st : Store) : list TheatreHall.t := halls st.
Definition list_ := queryset.
Definition create : TheatreHallSerializer.Payload -> Handler TheatreHall.t :=
  create_with (fun _ => TheatreHallSerializer.is_valid)
    TheatreHallSerializer.save.
End TheatreHallViewSet.

Module PlayViewSet.

(** Converts a list of string IDs to a list of integers. *)
Definition _params_to_ints (qs : string) : Result (list Z) :=
  traverse Py.int (Py.split "," qs).

(** [queryset.filter(<relation>__id__in=ids)] over a many-to-many
    relation: the inner join with the link table yields a play once per
    matching link row. *)
Definition filter_related_in
    (links : list Link) (ids : list Z) (queryset : list Play.t) : list Play.t :=
  p ← queryset;
  link ← links;
  if bool_decide (link.1 = Play.id p) && Lookup.in_ link.2 ids then [p] else [].

(** [Play.Meta.ordering = ["title"]], under the binary collation. *)
Definition title_le (p q : Play.t) : Prop :=
  String.leb (Play.title p) (Play.title q) = true.

#[global] Instance title_le_dec : RelDecision title_le.
Proof. intros p q. unfold title_le. apply _. Defined.

Definition distinct (queryset : list Play.t) : list Play.t :=
  remove_dups queryset.

Definition order_by_title (queryset : list Play.t) : list Play.t :=
  merge_sort title_le queryset.

(** Retrieve the plays with filters. *)
Definition get_queryset (st : Store) (query_params : gmap string string)
    : Result (list Play.t) :=
  let title := query_params !! "title" in
  let genres := query_params !! "genres" in
  let actors := query_params !! "actors" in
  let queryset := plays st in
  queryset ←
    match Py.truthy title with
    | Some title =>
        Ok (filter (fun p => Lookup.icontains (Play.title p) title) queryset)
    | None => Ok queryset
    end;
  queryset ←
    match Py.truthy genres with
    | Some genres =>
        genres_ids ← _params_to_ints genres;
        Ok (filter_related_in (play_genres st) genres_ids queryset)
    | None => Ok queryset
    end;
  queryset ←
    match Py.truthy actors with
    | Some actors =>
        actors_ids ← _params_to_ints actors;
        Ok (filter_related_in (play_actors st) actors_ids queryset)
    | None => Ok queryset
    end;
  Ok (order_by_title (distinct queryset)).

Definition list_ := get_queryset.

Definition get_object (st : Store) (query_params : gmap string string)
    (pk : Z) : Result Play.t :=
  queryset ← get_queryset st query_params;
  match List.find (fun p => Play.id p =? pk) queryset with
  | Some p => Ok p
  | None => Raise NotFound
  end.

Definition create : PlaySerializer.Payload -> Handler Play.t :=
  create_with PlaySerializer.is_valid PlaySerializer.create.

Definition update (query_params : gmap string string) (pk : Z)
    (data : PlaySerializer.Payload) : Handler Play.t :=
  instance ← (fun st => (st, get_object st query_params pk));
  create_with PlaySerializer.is_valid (PlaySerializer.update instance) data.

End PlayViewSet.

Module PerformanceViewSet.

(** A row of the annotated queryset: the performance, its
    [select_related] play and hall, and the computed annotation. *)
Record Row := MkRow
  { performance : Performance.t;
    play : Play.t;
    theatre_hall : TheatreHall.t;
    tickets_available : Z }.

(** [LEFT OUTER JOIN ticket ON ticket.performance_id = performance.id]:
    the group of joined ticket columns of one performance; a performance
    without tickets keeps one row of nulls. *)
Definition joined_tickets (st : Store) (p : Performance.t)
    : list (option Ticket.t) :=
  match tickets_of st (Performance.id p) with
  | [] => [None]
  | ts => Some <$> ts
  end.

(** [Count("tickets")]: the non-null entries of the group. *)
Fixpoint Count (group : list (option Ticket.t)) : Z :=
  match group with
  | [] => 0
  | Some _ :: group' => 1 + Count group'
  | None :: group' => Count group'
  end.

(** The class attribute [queryset]: performances joined with their play
    and hall, grouped by performance, annotated with
    [F("theatre_hall__rows") * F("theatre_hall__seats_in_row") - Count("tickets")]. *)
Definition queryset (st : Store) : list Row :=
  p ← performances st;
  pl ← filter (fun pl => Play.id pl = Performance.play p) (plays st);
  h ← filter (fun h => TheatreHall.id h = Performance.theatre_hall p) (halls st);
  [MkRow p pl h
     (TheatreHall.rows h * TheatreHall.seats_in_row h
      - Count (joined_tickets st p))].

Definition get_queryset (st : Store) (query_params : gmap string string)
    : Result (list Row) :=
  let date := query_params !! "date" in
  let play_id_str := query_params !! "play" in
  let queryset := queryset st in
  queryset ←
    match Py.truthy date with
    | Some date =>
        date ← Datetime.strptime_date date;
        Ok (filter (fun r =>
              Datetime.on (Performance.show_time (performance r)) = date)
              queryset)
    | None => Ok queryset
    end;
  queryset ←
    match Py.truthy play_id_str with
    | Some play_id_str =>
        play_id ← Py.int play_id_str;
        Ok (filter (fun r => Performance.play (performance r) = play_id)
              queryset)
    | None => Ok queryset
    end;
  Ok queryset.

Definition list_ := get_queryset.

(** [get_object()], as used by retrieve, update and destroy: the row of
    [get_queryset()] with the given primary key, or 404. *)
Definition get_object (st : Store) (query_params : gmap string string)
    (pk : Z) : Result Row :=
  queryset ← get_queryset st query_params;
  match List.find (fun r => Performance.id (performance r) =? pk) queryset with
  | Some r => Ok r
  | None => Raise NotFound
  end.

Definition retrieve := get_object.

Definition create : PerformanceSerializer.Payload -> Handler Performance.t :=
  create_with PerformanceSerializer.is_valid PerformanceSerializer.create.

(** [update] and [partial_update]: a full update requires every field. *)
Definition update (partial : bool) (query_params : gmap string string)
    (pk : Z) (data : PerformanceSerializer.Payload) : Handler Performance.t :=
  instance ← (fun st => (st, get_object st query_params pk));
  _ ← lift (if partial then Ok tt
            else _ ← PerformanceSerializer.required
                       (PerformanceSerializer.play data);
                 _ ← PerformanceSerializer.required
                       (PerformanceSerializer.theatre_hall data);
                 _ ← PerformanceSerializer.required
                       (PerformanceSerializer.show_time data);
                 Ok tt);
  create_with PerformanceSerializer.is_valid
    (PerformanceSerializer.update (performance instance)) data.

(** [destroy]: deleting a performance cascades to its tickets (the
    cascade is the spec's; the [Ticket] class is not in the sources). *)
Definition destroy (query_params : gmap string string) (pk : Z)
    : Handler unit :=
  instance ← (fun st => (st, get_object st query_params pk));
  write (fun st =>
    set_performances
      (filter (fun p => Performance.id p ≠ pk) (performances st))
      (set_tickets
         (filter (fun t => Ticket.performance t ≠ pk) (tickets st)) st)).

End PerformanceViewSet.

Module ReservationPagination.

Definition page_size : Z := 10.
Definition max_page_size : Z := 100.

(** [Paginator.num_pages]: an empty first page is allowed. *)
Definition num_pages {A} (object_list : list A) : Z :=
  let hits := Z.max 1 (Z.of_nat (length object_list)) in
  (hits + page_size - 1) / page_size.

(** The page selected by the [page] query parameter (default 1, or
    ["last"]); an invalid page number is a 404. *)
Definition paginate_queryset {A} (object_list : list A)
    (query_params : gmap string string) : Result (list A) :=
  number ←
    match Py.truthy (query_params !! "page") with
    | None => Ok 1
    | Some s =>
        if bool_decide (s = "last") then Ok (num_pages object_list)
        else match Py.int s with
             | Ok n => Ok n
             | Raise _ => Raise NotFound
             end
    end;
  if (number <? 1) || (num_pages object_list <? number) then Raise NotFound
  else
    let bottom := Z.to_nat ((number - 1) * page_size) in
    Ok (take (Z.to_nat page_size) (drop bottom object_list)).

End ReservationPagination.

Module ReservationViewSet.

(** [permission_classes = [IsAuthenticated]]: the request's user is
    [None] for an anonymous caller. *)
Definition check_permissions (request_user : option Z) : Result Z :=
  match request_user with
  | Some user => Ok user
  | None => Raise PermissionDenied
  end.

(** [Reservation.objects.filter(user=self.request.user)]. *)
Definition get_queryset (st : Store) (request_user : Z)
    : list Reservation.t :=
  filter (fun r => Reservation.user r = request_user) (reservations st).

Definition list_ (st : Store) (request_user : option Z)
    (query_params : gmap string string) : Result (list Reservation.t) :=
  user ← check_permissions request_user;
  ReservationPagination.paginate_queryset (get_queryset st user) query_params.

(** [serializer.save(user=self.request.user)]. *)
Definition perform_create (now : Datetime.datetime) (request_user : Z)
    (validated_data : gmap string ReservationSerializer.Field)
    : Handler Reservation.t :=
  ReservationSerializer.save now validated_data
    {["user" := ReservationSerializer.FUser request_user]}.

Definition create (request_user : option Z) (now : Datetime.datetime)
    (data : ReservationSerializer.Payload) : Handler Reservation.t :=
  user ← lift (check_permissions request_user);
  create_with ReservationSerializer.is_valid (perform_create now user) data.

End ReservationViewSet.

(** ** The service as a transition system *)

(** The write requests of the API. *)
Inductive Request :=
  | CreateGenre (name : string)
  | CreateActor (first_name last_name : string)
  | CreateHall (data : TheatreHallSerializer.Payload)
  | CreatePlay (data : PlaySerializer.Payload)
  | UpdatePlay (query_params : gmap string string) (pk : Z)
      (data : PlaySerializer.Payload)
  | CreatePerformance (data : PerformanceSerializer.Payload)
  | UpdatePerformance (partial : bool) (query_params : gmap string string)
      (pk : Z) (data : PerformanceSerializer.Payload)
  | DestroyPerformance (query_params : gmap string string) (pk : Z)
  | CreateReservation (request_user : option Z) (now : Datetime.datetime)
      (data : ReservationSerializer.Payload).

Definition outcome {A} (h : Handler A) : Handler unit := fun st =>
  match h st with
  | (st', Ok _) => (st', Ok tt)
  | (st', Raise e) => (st', Raise e)
  end.

Definition dispatch (r : Request) : Handler unit :=
  match r with
  | CreateGenre name => outcome (GenreViewSet.create name)
  | CreateActor first_name last_name =>
      outcome (ActorViewSet.create first_name last_name)
  | CreateHall data => outcome (TheatreHallViewSet.create data)
  | CreatePlay data => outcome (PlayViewSet.create data)
  | UpdatePlay query_params pk data =>
      outcome (PlayViewSet.update query_params pk data)
  | CreatePerformance data => outcome (PerformanceViewSet.create data)
  | UpdatePerformance partial query_params pk data =>
      outcome (PerformanceViewSet.update partial query_params pk data)
  | DestroyPerformance query_params pk =>
      PerformanceViewSet.destroy query_params pk
  | CreateReservation request_user now data =>
      outcome (ReservationViewSet.create request_user now data)
  end.

(** The store after a request. *)
Definition after (r : Request) (st : Store) : Store := (dispatch r st).1.

(** The store after a sequence of requests, oldest first. *)
Definition run (rs : list Request) (st : Store) : Store :=
  foldl (fun st r => after r st) st rs.

Inductive reachable : Store -> Prop :=
  | reachable_empty : reachable empty_store
  | reachable_after r st : reachable st -> reachable (after r st).

(** ** Specification-side definitions *)

(** The availability of the specification: hall capacity minus the number
    of persisted tickets that reference the performance. *)
Definition spec_tickets_available
    (st : Store) (p : Performance.t) (hall : TheatreHall.t) : Z :=
  TheatreHall.capacity hall
  - Z.of_nat (length (filter (fun t => Ticket.performance t = Performance.id p)
                        (tickets st))).

(** The filter parameters of [listPerformances] once read: a parameter
    that is absent or empty is not given. *)
Definition date_param (query_params : gmap string string)
    : Result (option Datetime.date) :=
  match Py.truthy (query_params !! "date") with
  | Some s => Some <$> Datetime.strptime_date s
  | None => Ok None
  end.

Definition play_param (query_params : gmap string string)
    : Result (option Z) :=
  match Py.truthy (query_params !! "play") with
  | Some s => Some <$> Py.int s
  | None => Ok None
  end.

(** The id-list parameters of [listPlays] once read. *)
Definition ids_param (name : string) (query_params : gmap string string)
    : Result (option (list Z)) :=
  match Py.truthy (query_params !! name) with
  | Some s => Some <$> PlayViewSet._params_to_ints s
  | None => Ok None
  end.

(** [needle] occurs in [hay], ignoring ASCII case. *)
Definition contains_ignoring_case (hay needle : string) : Prop :=
  exists pre post,
    Lookup.lower hay = pre +:+ Lookup.lower needle +:+ post.

(** A play passes the filters of [listPlays]. *)
Definition play_matches (st : Store) (title : option string)
    (genre_ids actor_ids : option (list Z)) (p : Play.t) : Prop :=
  (forall t, title = Some t -> contains_ignoring_case (Play.title p) t)
  /\ (forall ids, genre_ids = Some ids ->
        exists g, g ∈ ids /\ (Play.id p, g) ∈ play_genres st)
  /\ (forall ids, actor_ids = Some ids ->
        exists a, a ∈ ids /\ (Play.id p, a) ∈ play_actors st).

(** Every performance references an existing play and an existing hall. *)
Definition referential_integrity (st : Store) : Prop :=
  Forall (fun p =>
      Performance.play p ∈ Play.id <$> plays st
      /\ Performance.theatre_hall p ∈ TheatreHall.id <$> halls st)
    (performances st).

#[global] Instance referential_integrity_dec st :
  Decision (referential_integrity st).
Proof. unfold referential_integrity. apply _. Defined.

(** A row passes the filters that were given. *)
Definition row_passes (date : option Datetime.date) (play_id : option Z)
    (r : PerformanceViewSet.Row) : Prop :=
  (forall d, date = Some d ->
     Datetime.on (Performance.show_time (PerformanceViewSet.performance r)) = d)
  /\ (forall k, play_id = Some k ->
        Performance.play (PerformanceViewSet.performance r) = k).

(** ** A worked scenario

    The scenario of the specification: a hall of 5 rows of 10 seats, a
    performance in it, three tickets sold; then rejected bookings (a row
    out of bounds, a seat already sold, the same seat twice, an anonymous
    caller). *)

Definition evening : Datetime.datetime :=
  Datetime.DateTime (Datetime.Date 2024 5 1) 68400.

Definition seat_at (row seat performance : Z) : ReservationSerializer.TicketData :=
  ReservationSerializer.MkTicket row seat performance.

Definition scenario : list Request :=
  [CreateGenre "drama"; CreateGenre "comedy"; CreateActor "Sarah" "Siddons";
   CreateHall (TheatreHallSerializer.MkPayload "Main" (RInt 5) (RStr "10"));
   CreatePlay (PlaySerializer.MkPayload "Hamlet" "A prince." [1; 2] [1]);
   CreatePlay (PlaySerializer.MkPayload "Aida" "An opera." [2] []);
   CreatePerformance
     (PerformanceSerializer.MkPayload (Some 1) (Some 1) (Some evening));
   CreateReservation (Some 7) evening
     (ReservationSerializer.MkPayload (Some 9)
        [seat_at 1 1 1; seat_at 1 2 1; seat_at 2 1 1]);
   CreateReservation (Some 8) evening
     (ReservationSerializer.MkPayload None [seat_at 3 3 1; seat_at 6 1 1]);
   CreateReservation (Some 8) evening
     (ReservationSerializer.MkPayload None [seat_at 3 3 1; seat_at 1 1 1]);
   CreateReservation (Some 8) evening
     (ReservationSerializer.MkPayload None [seat_at 3 3 1; seat_at 3 3 1]);
   CreateReservation None evening
     (ReservationSerializer.MkPayload None [seat_at 3 3 1])].

Definition scenario_store : Store := run scenario empty_store.

(** The row of the scenario's performance: 50 seats, 3 sold. *)
Definition scenario_row : PerformanceViewSet.Row :=
  PerformanceViewSet.MkRow
    (Performance.Make 1 1 1 evening)
    (Play.Make 1 "Hamlet" "A prince." None)
    (TheatreHall.Make 1 "Main" 5 10)
    47.

(** ** The effect of a request on the store *)

Definition set_sequences (seq : gmap string Z) (st : Store) : Store :=
  MkStore (halls st) (genres st) (actors st) (plays st) (play_genres st)
    (play_actors st) (performances st) (reservations st) (tickets st) seq.

(** The primary key [nextval] hands out, and the store it leaves. *)
Definition next_pk (table : string) (st : Store) : Z :=
  default 0 (sequences st !! table) + 1.

Definition bump (table : string) (st : Store) : Store :=
  set_sequences (<[table := next_pk table st]> (sequences st)) st.

(** A ticket row holds the data of a requested ticket for a reservation. *)
Definition ticket_for (reservation : Z) (t : Ticket.t)
    (data : ReservationSerializer.TicketData) : Prop :=
  Ticket.row t = ReservationSerializer.row data
  /\ Ticket.seat t = ReservationSerializer.seat data
  /\ Ticket.performance t = ReservationSerializer.performance data
  /\ Ticket.reservation t = reservation.

(** The seat lies within the hall of the performance, as step 1 of
    createReservation requires. *)
Definition seat_in_bounds (st : Store) (performance row seat : Z) : Prop :=
  exists p hall,
    get_performance st performance = Some p
    /\ get_hall st (Performance.theatre_hall p) = Some hall
    /\ 1 <= row <= TheatreHall.rows hall
    /\ 1 <= seat <= TheatreHall.seats_in_row hall.

(** The sequences of the tables other than tickets and reservations are
    as before. *)
Definition other_sequences_kept (seq seq' : gmap string Z) : Prop :=
  forall table,
    table <> "theatre_ticket" -> table <> "theatre_reservation" ->
    seq' !! table = seq !! table.

(** [instance] replaced by its updated row. *)
Definition replace_performance (new : Performance.t)
    (ps : list Performance.t) : list Performance.t :=
  (fun p => if bool_decide (Performance.id p = Performance.id new)
            then new else p) <$> ps.

(** A request keeps halls fixed when it does not move a performance that
    has tickets to another hall. *)
Definition keeps_halls (st : Store) (r : Request) : Prop :=
  match r with
  | UpdatePerformance _ _ pk data =>
      Forall (fun p =>
          Performance.id p = pk ->
          PerformanceSerializer.theatre_hall data = None
          \/ PerformanceSerializer.theatre_hall data
             = Some (Performance.theatre_hall p)
          \/ tickets_of st pk = [])
        (performances st)
  | _ => True
  end.

(** The states reached from the empty store by requests that keep halls
    fixed. *)
Inductive reachable_fixed_halls : Store -> Prop :=
  | reachable_fixed_empty : reachable_fixed_halls empty_store
  | reachable_fixed_after r st :
      reachable_fixed_halls st -> keeps_halls st r ->
      reachable_fixed_halls (after r st).

(** What a request can do to the store, whatever its outcome.  With
    [fixed] set, an update keeps the hall of a performance with tickets. *)
Inductive effect (fixed : bool) (st : Store) : Store -> Prop :=
  | effect_none : effect fixed st st
  | effect_catalog gs acs ps pgs pas seq' :
      Play.id <$> plays st ⊆ Play.id <$> ps ->
      seq' !! "theatre_theatrehall" = sequences st !! "theatre_theatrehall" ->
      seq' !! "theatre_performance" = sequences st !! "theatre_performance" ->
      effect fixed st
        (MkStore (halls st) gs acs ps pgs pas (performances st)
           (reservations st) (tickets st) seq')
  | effect_hall name rows seats_in_row :
      effect fixed st
        (insert_hall
           (TheatreHall.Make (next_pk "theatre_theatrehall" st)
              name rows seats_in_row)
           (bump "theatre_theatrehall" st))
  | effect_performance play hall show_time :
      play ∈ Play.id <$> plays st ->
      hall ∈ TheatreHall.id <$> halls st ->
      effect fixed st
        (set_performances
           (performances st
            ++ [Performance.Make (next_pk "theatre_performance" st)
                  play hall show_time])
           (bump "theatre_performance" st))
  | effect_update old new :
      old ∈ performances st ->
      Performance.id new = Performance.id old ->
      Performance.play new ∈ Play.id <$> plays st ->
      Performance.theatre_hall new ∈ TheatreHall.id <$> halls st ->
      (fixed = true ->
       Performance.theatre_hall new = Performance.theatre_hall old
       \/ tickets_of st (Performance.id old) = []) ->
      effect fixed st
        (set_performances (replace_performance new (performances st)) st)
  | effect_destroy pk :
      effect fixed st
        (set_performances
           (filter (fun p => Performance.id p ≠ pk) (performances st))
           (set_tickets
              (filter (fun t => Ticket.performance t ≠ pk) (tickets st)) st))
  | effect_reservation R news seq' :
      NoDup (Ticket.coords <$> news) ->
      (forall t, t ∈ news -> Ticket.coords t ∉ Ticket.coords <$> tickets st) ->
      Forall (fun t =>
          seat_in_bounds st (Ticket.performance t) (Ticket.row t)
            (Ticket.seat t)) news ->
      seq' !! "theatre_theatrehall" = sequences st !! "theatre_theatrehall" ->
      seq' !! "theatre_performance" = sequences st !! "theatre_performance" ->
      effect fixed st
        (set_sequences seq'
           (set_tickets (tickets st ++ news) (insert_reservation R st))).

(** Primary keys of a table are distinct and were handed out by its
    sequence. *)
Definition keys_issued (table : string) (pks : list Z) (st : Store) : Prop :=
  NoDup pks /\ Forall (fun pk => pk < next_pk table st) pks.

(** The invariant of the store: keys of halls and performances are
    issued, performances reference existing plays and halls, and no two
    tickets share (performance, row, seat). *)
Record consistent (st : Store) : Prop := Consistent
  { hall_keys :
      keys_issued "theatre_theatrehall" (TheatreHall.id <$> halls st) st;
    performance_keys :
      keys_issued "theatre_performance" (Performance.id <$> performances st) st;
    references : referential_integrity st;
    seats_unique : NoDup (Ticket.coords <$> tickets st) }.


(** ** Two scenarios with negative availability *)





(** ** Further Python builtins: printing and joining *)

Module PyStr.

(** [str(z)] for an [int]: decimal digits, with a minus sign when
    negative. *)
Definition str (z : Z) : string := pretty z.

(** [sep.join(parts)]. *)
Fixpoint join (sep : string) (parts : list string) : string :=
  match parts with
  | [] => ""
  | [part] => part
  | part :: parts' => part +:+ sep +:+ join sep parts'
  end.

End PyStr.

(** The number of occurrences of a character in a string. *)
Fixpoint count_char (c : ascii) (s : string) : nat :=
  match s with
  | EmptyString => 0
  | String c' s' => (if Ascii.eqb c' c then 1 else 0) + count_char c s'
  end.

(** Every character of a string satisfies [P]. *)
Fixpoint string_forall (P : ascii -> Prop) (s : string) : Prop :=
  match s with
  | EmptyString => True
  | String c s' => P c /\ string_forall P s'
  end.

(** The value of a digit string read left to right from [a]. *)
Fixpoint horner (a : Z) (s : string) : Z :=
  match s with
  | EmptyString => a
  | String c s' => horner (10 * a + default 0 (Py.digit c)) s'
  end.

(** A row with its availability lowered by [n]. *)
Definition lower_availability (n : Z) (r : PerformanceViewSet.Row)
    : PerformanceViewSet.Row :=
  PerformanceViewSet.MkRow
    (PerformanceViewSet.performance r) (PerformanceViewSet.play r)
    (PerformanceViewSet.theatre_hall r)
    (PerformanceViewSet.tickets_available r - n).

(** ** [date.isoformat] and the spellings [strptime] reads *)

(** The character of a decimal digit. *)
Definition digit_char (d : Z) : ascii := ascii_of_N (48 + Z.to_N d).

(** ["%02d" % n], for [0 <= n < 100]. *)
Definition zfill2 (n : Z) : string :=
  String (digit_char (n / 10)) (String (digit_char (n mod 10)) "").

(** ["%04d" % n], for [0 <= n < 10000]. *)
Definition zfill4 (n : Z) : string := zfill2 (n / 100) +:+ zfill2 (n mod 100).

(** [date.isoformat()]: ["%04d-%02d-%02d" % (year, month, day)]. *)
Definition isoformat (d : Datetime.date) : string :=
  zfill4 (Datetime.year d) +:+ "-" +:+ zfill2 (Datetime.month d)
  +:+ "-" +:+ zfill2 (Datetime.day d).

(** The ways to write a month: two digits, or one digit below 10. *)
Definition month_spellings (m : Z) : list string :=
  zfill2 m :: (if m <? 10 then [String (digit_char m) ""] else []).

(** The ways to write a day of the month: two digits, or below 10 one
    digit, alone or after a blank. *)
Definition day_spellings (d : Z) : list string :=
  zfill2 d ::
  (if d <? 10
   then [String (digit_char d) ""; String " " (String (digit_char d) "")]
   else []).

(** ** The upload path of a play's image ([theatre/models.py]) *)

(** [os.path] on POSIX. *)
Module OsPath.

(** [s.rfind(c)]: the index of the last [c] in [s], or [-1]. *)
Fixpoint rfind (c : ascii) (s : string) : Z :=
  match s with
  | EmptyString => -1
  | String c' s' =>
      let i := rfind c s' in
      if 0 <=? i then 1 + i
      else if Ascii.eqb c c' then 0 else -1
  end.

(** The slices [s[:n]] and [s[n:]]. *)
Fixpoint slice_to (n : nat) (s : string) : string :=
  match n, s with
  | S n', String c s' => String c (slice_to n' s')
  | _, _ => EmptyString
  end.

Fixpoint slice_from (n : nat) (s : string) : string :=
  match n, s with
  | S n', String _ s' => slice_from n' s'
  | _, _ => s
  end.

(** The loop of [genericpath._splitext], which skips the leading dots of
    the file name: [steps] is [dotIndex - filenameIndex], the number of
    iterations left. *)
Fixpoint skip_leading_dots (p : string) (dotIndex : Z) (steps : nat)
    (filenameIndex : Z) : string * string :=
  match steps with
  | O => (p, EmptyString)
  | S steps' =>
      if negb (String.eqb
                 (slice_to 1 (slice_from (Z.to_nat filenameIndex) p)) ".")
      then (slice_to (Z.to_nat dotIndex) p, slice_from (Z.to_nat dotIndex) p)
      else skip_leading_dots p dotIndex steps' (filenameIndex + 1)
  end.

(** [os.path.splitext(p)]: the extension starts at the last dot of the
    last path component, unless only dots precede it there. *)
Definition splitext (p : string) : string * string :=
  let sepIndex := rfind "/" p in
  let dotIndex := rfind "." p in
  if sepIndex <? dotIndex then
    let filenameIndex := sepIndex + 1 in
    skip_leading_dots p dotIndex (Z.to_nat (dotIndex - filenameIndex))
      filenameIndex
  else (p, EmptyString).

Fixpoint endswith (c : ascii) (s : string) : bool :=
  match s with
  | EmptyString => false
  | String c' EmptyString => Ascii.eqb c c'
  | String _ s' => endswith c s'
  end.

(** [os.path.join(a, b)]: an absolute [b] replaces [a]. *)
Definition join (a b : string) : string :=
  if String.prefix "/" b then b
  else if bool_decide (a = "") || endswith "/" a then a +:+ b
  else a +:+ "/" +:+ b.

End OsPath.

(** [django.utils.text.slugify], on ASCII text. *)
Module Text.

Fixpoint filter_chars (keep : ascii -> bool) (s : string) : string :=
  match s with
  | EmptyString => EmptyString
  | String c s' =>
      if keep c then String c (filter_chars keep s') else filter_chars keep s'
  end.

Definition is_ascii (c : ascii) : bool := (N_of_ascii c <? 128)%N.

(** [\w] on the ASCII range: letters, digits and the underscore. *)
Definition is_word (c : ascii) : bool :=
  let n := N_of_ascii c in
  ((48 <=? n) && (n <=? 57) || (65 <=? n) && (n <=? 90)
   || (97 <=? n) && (n <=? 122) || (n =? 95))%N.

(** [[-\s]]. *)
Definition is_dash_or_space (c : ascii) : bool :=
  Ascii.eqb c "-" || Py.isspace c.

(** [re.sub(r"[^\w\s-]", "", value)]. *)
Definition drop_symbols (value : string) : string :=
  filter_chars (fun c => is_word c || is_dash_or_space c) value.

(** [re.sub(r"[-\s]+", "-", value)]: [in_run] holds inside a run of
    hyphens and blanks, whose hyphen is already written. *)
Fixpoint collapse_runs (in_run : bool) (value : string) : string :=
  match value with
  | EmptyString => EmptyString
  | String c value' =>
      if is_dash_or_space c then
        if in_run then collapse_runs true value'
        else String "-" (collapse_runs true value')
      else String c (collapse_runs false value')
  end.

Fixpoint lstrip_chars (chars : ascii -> bool) (s : string) : string :=
  match s with
  | String c s' => if chars c then lstrip_chars chars s' else s
  | EmptyString => EmptyString
  end.

(** [value.strip("-_")]. *)
Definition strip_dashes (value : string) : string :=
  let chars c := Ascii.eqb c "-" || Ascii.eqb c "_" in
  Py.rev_onto
    (lstrip_chars chars (Py.rev_onto (lstrip_chars chars value) "")) "".

(** [slugify(value)]: on ASCII text the NFKD normalisation changes
    nothing, and the ASCII codec drops what is not ASCII. *)
Definition slugify (value : string) : string :=
  let value := filter_chars is_ascii value in
  let value := drop_symbols (Lookup.lower value) in
  strip_dashes (collapse_runs false value).

End Text.

(** [uuid.uuid4()] and [str(UUID)]. *)
Module Uuid.

(** [UUID(bytes=os.urandom(16), version=4)]: the integer read from the
    random bytes, with the variant and version bits set. *)
Definition uuid4 (int : N) : N :=
  let int := N.ldiff int (N.shiftl 0xc000 48) in
  let int := N.lor int (N.shiftl 0x8000 48) in
  let int := N.ldiff int (N.shiftl 0xf000 64) in
  N.lor int (N.shiftl 4 76).

Definition hex_char (d : N) : ascii :=
  if (d <? 10)%N then ascii_of_N (48 + d) else ascii_of_N (87 + d).

(** ["%0<width>x" % n], for [n < 16 ^ width]. *)
Fixpoint hex (width : nat) (n : N) : string :=
  match width with
  | O => EmptyString
  | S width' => hex width' (n / 16) +:+ String (hex_char (n mod 16)) ""
  end.

(** [str(UUID(int=int))]. *)
Definition str (int : N) : string :=
  let hex := hex 32 int in
  OsPath.slice_to 8 hex
  +:+ "-" +:+ OsPath.slice_to 4 (OsPath.slice_from 8 hex)
  +:+ "-" +:+ OsPath.slice_to 4 (OsPath.slice_from 12 hex)
  +:+ "-" +:+ OsPath.slice_to 4 (OsPath.slice_from 16 hex)
  +:+ "-" +:+ OsPath.slice_from 20 hex.

End Uuid.

(** [play_image_file_path(instance, filename)]; [random] is the integer
    of the 16 bytes that [uuid4] draws. *)
Definition play_image_file_path (random : N) (instance : Play.t)
    (filename : string) : string :=
  let extension := (OsPath.splitext filename).2 in
  let filename :=
    Text.slugify (Play.title instance) +:+ "-"
    +:+ Uuid.str (Uuid.uuid4 random) +:+ extension in
  OsPath.join "uploads/plays/" filename.

(** The characters of a slug: lower-case letters, digits, underscore
    and hyphen. *)
Definition slug_char (c : ascii) : bool :=
  let n := N_of_ascii c in
  ((48 <=? n) && (n <=? 57) || (97 <=? n) && (n <=? 122)
   || (n =? 95) || (n =? 45))%N.

(** The characters of a UUID's text: lower-case hexadecimal digits and
    hyphen. *)
Definition uuid_char (c : ascii) : bool :=
  let n := N_of_ascii c in
  ((48 <=? n) && (n <=? 57) || (97 <=? n) && (n <=? 102) || (n =? 45))%N.

(** * Properties *)

(** ** Availability *)

Lemma Count_fmap_Some (ts : list Ticket.t) :
  PerformanceViewSet.Count (Some <$> ts) = Z.of_nat (length ts).
Proof.
  induction ts as [|t ts IH]; [reflexivity|].
  change (1 + PerformanceViewSet.Count (Some <$> ts)
          = Z.of_nat (S (length ts))).
  rewrite IH. lia.
Qed.

Lemma Count_joined_tickets st p :
  PerformanceViewSet.Count (PerformanceViewSet.joined_tickets st p)
  = Z.of_nat (length (tickets_of st (Performance.id p))).
Proof.
  unfold PerformanceViewSet.joined_tickets.
  destruct (tickets_of st (Performance.id p)) as [|t ts] eqn:E; [reflexivity|].
  apply Count_fmap_Some.
Qed.

Lemma queryset_row st r :
  r ∈ PerformanceViewSet.queryset st <->
  PerformanceViewSet.performance r ∈ performances st
  /\ PerformanceViewSet.play r ∈ plays st
  /\ Play.id (PerformanceViewSet.play r)
     = Performance.play (PerformanceViewSet.performance r)
  /\ PerformanceViewSet.theatre_hall r ∈ halls st
  /\ TheatreHall.id (PerformanceViewSet.theatre_hall r)
     = Performance.theatre_hall (PerformanceViewSet.performance r)
  /\ PerformanceViewSet.tickets_available r
     = spec_tickets_available st (PerformanceViewSet.performance r)
         (PerformanceViewSet.theatre_hall r).
Proof.
  unfold PerformanceViewSet.queryset, spec_tickets_available,
    TheatreHall.capacity.
  rewrite list_elem_of_bind. split.
  - intros (p & Hr & Hp).
    apply list_elem_of_bind in Hr as (pl & Hr & Hpl).
    apply list_elem_of_bind in Hr as (h & Hr & Hh).
    apply list_elem_of_filter in Hpl as [Hpl1 Hpl2].
    apply list_elem_of_filter in Hh as [Hh1 Hh2].
    apply list_elem_of_singleton in Hr. subst r. cbn.
    rewrite Count_joined_tickets. unfold tickets_of. auto 10.
  - intros (Hp & Hpl & Hpl' & Hh & Hh' & Hav). destruct r as [p pl h n].
    cbn in *. exists p. split; [|exact Hp].
    apply list_elem_of_bind. exists pl. split.
    2:{ apply list_elem_of_filter. auto. }
    apply list_elem_of_bind. exists h. split.
    2:{ apply list_elem_of_filter. auto. }
    apply list_elem_of_singleton. f_equal. rewrite Hav.
    rewrite Count_joined_tickets. reflexivity.
Qed.

(** ** Filtered listing of performances *)

Lemma performance_get_queryset_ok st qp date play_id :
  date_param qp = Ok date -> play_param qp = Ok play_id ->
  exists rows,
    PerformanceViewSet.get_queryset st qp = Ok rows
    /\ forall r, r ∈ rows <->
         r ∈ PerformanceViewSet.queryset st /\ row_passes date play_id r.
Proof.
  unfold date_param, play_param, PerformanceViewSet.get_queryset, row_passes.
  intros Hd Hk.
  destruct (Py.truthy (qp !! "date")) as [ds|];
    [destruct (Datetime.strptime_date ds) as [d|e]; [|discriminate]|];
    destruct (Py.truthy (qp !! "play")) as [ks|];
    try (destruct (Py.int ks) as [k|e']; [|discriminate]);
    cbn in Hd, Hk; simplify_eq; cbn;
    eexists; (split; [reflexivity|]); intros r;
    rewrite ?list_elem_of_filter;
    (split; [intros; repeat split; intros; simplify_eq; tauto
            |intros (? & Hd' & Hk'); eauto]).
Qed.

Lemma performance_get_queryset_inv st qp rows :
  PerformanceViewSet.get_queryset st qp = Ok rows ->
  exists date play_id, date_param qp = Ok date /\ play_param qp = Ok play_id.
Proof.
  unfold date_param, play_param, PerformanceViewSet.get_queryset.
  destruct (Py.truthy (qp !! "date")) as [ds|];
    [destruct (Datetime.strptime_date ds) as [d|e]; [|discriminate]|];
    (destruct (Py.truthy (qp !! "play")) as [ks|];
     [destruct (Py.int ks) as [k|e']; [|discriminate]|]);
    cbn; eauto.
Qed.

Lemma performance_get_queryset_subset st qp rows r :
  PerformanceViewSet.get_queryset st qp = Ok rows ->
  r ∈ rows -> r ∈ PerformanceViewSet.queryset st.
Proof.
  intros Hq Hr.
  destruct (performance_get_queryset_inv _ _ _ Hq) as (d & k & Hd & Hk).
  destruct (performance_get_queryset_ok st qp d k Hd Hk) as (rows' & Hq' & Hin).
  rewrite Hq in Hq'. simplify_eq. apply Hin in Hr. tauto.
Qed.

Lemma performance_get_object_elem st qp pk r :
  PerformanceViewSet.get_object st qp pk = Ok r ->
  exists rows, PerformanceViewSet.get_queryset st qp = Ok rows
    /\ r ∈ rows /\ Performance.id (PerformanceViewSet.performance r) = pk.
Proof.
  unfold PerformanceViewSet.get_object.
  destruct (PerformanceViewSet.get_queryset st qp) as [rows|e]; [|discriminate].
  cbn. destruct (List.find _ rows) as [r'|] eqn:Hf; [|discriminate].
  intros [= ->]. exists rows. apply List.find_some in Hf as [Hin Heq].
  split; [reflexivity|]. split; [by apply list_elem_of_In|]. lia.
Qed.

(** C1: every performance returned by listPerformances or getPerformance
    carries [tickets_available] equal to the rows of its hall times the
    seats per row, minus the number of persisted tickets that reference the
    performance; the value is computed from the ticket table of the store
    the request reads, and the unfiltered listing always returns. *)
Theorem C1_tickets_available_at_read_time
    (st : Store) (query_params : gmap string string) :
  (forall rows r,
     PerformanceViewSet.list_ st query_params = Ok rows -> r ∈ rows ->
     PerformanceViewSet.tickets_available r
     = TheatreHall.rows (PerformanceViewSet.theatre_hall r)
       * TheatreHall.seats_in_row (PerformanceViewSet.theatre_hall r)
       - Z.of_nat (length (filter
           (fun t => Ticket.performance t
                     = Performance.id (PerformanceViewSet.performance r))
           (tickets st)))
     /\ PerformanceViewSet.performance r ∈ performances st
     /\ PerformanceViewSet.theatre_hall r ∈ halls st
     /\ TheatreHall.id (PerformanceViewSet.theatre_hall r)
        = Performance.theatre_hall (PerformanceViewSet.performance r))
  /\ (forall pk r,
        PerformanceViewSet.retrieve st query_params pk = Ok r ->
        Performance.id (PerformanceViewSet.performance r) = pk
        /\ PerformanceViewSet.tickets_available r
           = TheatreHall.rows (PerformanceViewSet.theatre_hall r)
             * TheatreHall.seats_in_row (PerformanceViewSet.theatre_hall r)
             - Z.of_nat (length (filter
                 (fun t => Ticket.performance t = pk) (tickets st)))
        /\ PerformanceViewSet.performance r ∈ performances st
        /\ PerformanceViewSet.theatre_hall r ∈ halls st
        /\ TheatreHall.id (PerformanceViewSet.theatre_hall r)
           = Performance.theatre_hall (PerformanceViewSet.performance r))
  /\ PerformanceViewSet.list_ st ∅ = Ok (PerformanceViewSet.queryset st).
Proof.
  split; [|split].
  - intros rows r Hq Hr.
    apply (performance_get_queryset_subset _ _ _ _ Hq), queryset_row in Hr.
    destruct Hr as (Hp & _ & _ & Hh & Hid & Hav). auto.
  - intros pk r Hget.
    apply performance_get_object_elem in Hget as (rows & Hq & Hr & Hpk).
    apply (performance_get_queryset_subset _ _ _ _ Hq), queryset_row in Hr.
    destruct Hr as (Hp & _ & _ & Hh & Hid & Hav). subst pk. auto.
  - reflexivity.
Qed.

Lemma C1_tickets_available_witness :
  PerformanceViewSet.retrieve scenario_store ∅ 1 = Ok scenario_row
  /\ PerformanceViewSet.tickets_available scenario_row
     = 5 * 10
       - Z.of_nat (length (filter
           (fun t => Ticket.performance t = 1) (tickets scenario_store))).
Proof.
  assert (PerformanceViewSet.retrieve scenario_store ∅ 1 = Ok scenario_row)
    as Hget by (vm_compute; reflexivity).
  split; [exact Hget|].
  exact (proj1 (proj2 (proj1 (proj2
    (C1_tickets_available_at_read_time scenario_store ∅)) 1 scenario_row Hget))).
Defined.

Lemma performance_row_exists st p :
  referential_integrity st -> p ∈ performances st ->
  exists r, r ∈ PerformanceViewSet.queryset st
            /\ PerformanceViewSet.performance r = p.
Proof.
  intros Hint Hp. unfold referential_integrity in Hint.
  rewrite Forall_forall in Hint. destruct (Hint p Hp) as [Hpl Hh].
  apply list_elem_of_fmap in Hpl as (pl & Hpl & Hpl').
  apply list_elem_of_fmap in Hh as (h & Hh & Hh').
  exists (PerformanceViewSet.MkRow p pl h (spec_tickets_available st p h)).
  split; [|reflexivity]. apply queryset_row. cbn. auto 10.
Qed.

(** C8: listPerformances combines its optional parameters with AND: in a
    store whose performances reference existing plays and halls, a
    performance is in the result iff the date of its show_time equals the
    date parameter (when given) and its play id equals the play parameter
    (when given); without parameters every performance is returned. *)
Theorem C8_listPerformances_filters
    (st : Store) (query_params : gmap string string) :
  referential_integrity st ->
  (forall date play_id,
     date_param query_params = Ok date ->
     play_param query_params = Ok play_id ->
     exists rows,
       PerformanceViewSet.list_ st query_params = Ok rows
       /\ forall p,
            p ∈ PerformanceViewSet.performance <$> rows <->
            p ∈ performances st
            /\ (forall d, date = Some d ->
                  Datetime.on (Performance.show_time p) = d)
            /\ (forall k, play_id = Some k -> Performance.play p = k))
  /\ (query_params !! "date" = None -> query_params !! "play" = None ->
      exists rows,
        PerformanceViewSet.list_ st query_params = Ok rows
        /\ forall p,
             p ∈ PerformanceViewSet.performance <$> rows <-> p ∈ performances st).
Proof.
  intros Hint.
  assert (forall date play_id,
    date_param query_params = Ok date ->
    play_param query_params = Ok play_id ->
    exists rows,
      PerformanceViewSet.list_ st query_params = Ok rows
      /\ forall p,
           p ∈ PerformanceViewSet.performance <$> rows <->
           p ∈ performances st
           /\ (forall d, date = Some d ->
                 Datetime.on (Performance.show_time p) = d)
           /\ (forall k, play_id = Some k -> Performance.play p = k)) as Hmain.
  { intros date play_id Hd Hk.
    destruct (performance_get_queryset_ok st query_params date play_id Hd Hk)
      as (rows & Hq & Hrows).
    exists rows. split; [exact Hq|]. intros p. rewrite list_elem_of_fmap. split.
    - intros (r & -> & Hr). apply Hrows in Hr as [Hr [Hd' Hk']].
      apply queryset_row in Hr. tauto.
    - intros (Hp & Hd' & Hk').
      destruct (performance_row_exists st p Hint Hp) as (r & Hr & <-).
      exists r. split; [reflexivity|]. apply Hrows. split; [exact Hr|].
      split; assumption. }
  split; [exact Hmain|].
  intros Hnd Hnp.
  destruct (Hmain None None) as (rows & Hq & Hrows).
  - unfold date_param. rewrite Hnd. reflexivity.
  - unfold play_param. rewrite Hnp. reflexivity.
  - exists rows. split; [exact Hq|]. intros p. rewrite Hrows.
    split; [tauto|]. intros Hp. split; [exact Hp|]. split; discriminate.
Qed.

Lemma C8_listPerformances_witness :
  exists rows,
    PerformanceViewSet.list_ scenario_store
      {["date" := "2024-05-01"; "play" := "1"]} = Ok rows
    /\ forall p,
         p ∈ PerformanceViewSet.performance <$> rows <->
         p ∈ performances scenario_store
         /\ (forall d, Some (Datetime.Date 2024 5 1) = Some d ->
               Datetime.on (Performance.show_time p) = d)
         /\ (forall k, Some 1 = Some k -> Performance.play p = k).
Proof.
  apply (proj1 (C8_listPerformances_filters scenario_store
                  {["date" := "2024-05-01"; "play" := "1"]}
                  ltac:(vm_compute; repeat constructor))
           (Some (Datetime.Date 2024 5 1)) (Some 1));
    vm_compute; reflexivity.
Defined.

(** ** Listing reservations *)

Lemma paginate_queryset_subseteq {A} (object_list page : list A) qp :
  ReservationPagination.paginate_queryset object_list qp = Ok page ->
  page ⊆ object_list.
Proof.
  unfold ReservationPagination.paginate_queryset.
  destruct (match Py.truthy (qp !! "page") with
            | Some s => _ | None => _ end) as [n|e]; [|discriminate].
  cbn. destruct (_ || _); [discriminate|]. intros [= <-].
  etransitivity; [apply subseteq_take|apply subseteq_drop].
Qed.

Lemma paginate_queryset_first_page {A} (object_list : list A) :
  ReservationPagination.paginate_queryset object_list ∅
  = Ok (take 10 object_list).
Proof.
  unfold ReservationPagination.paginate_queryset. rewrite lookup_empty. cbn.
  assert (1 <= ReservationPagination.num_pages object_list) as Hn.
  { unfold ReservationPagination.num_pages, ReservationPagination.page_size.
    apply Z.div_le_lower_bound; lia. }
  destruct (_ <? 1) eqn:E; [lia|]. reflexivity.
Qed.

(** C5: listReservations returns only reservations owned by the calling
    user.  Every reservation on any page returned to user A is a persisted
    reservation whose user is A, so no reservation of another user B
    appears; an anonymous caller gets PermissionDenied, and the first page
    always returns. *)
Theorem C5_listReservations_only_own
    (st : Store) (A : Z) (query_params : gmap string string) :
  (forall page R,
     ReservationViewSet.list_ st (Some A) query_params = Ok page ->
     R ∈ page ->
     Reservation.user R = A /\ R ∈ reservations st)
  /\ (forall page R B,
        ReservationViewSet.list_ st (Some A) query_params = Ok page ->
        Reservation.user R = B -> B <> A -> R ∉ page)
  /\ ReservationViewSet.list_ st None query_params = Raise PermissionDenied
  /\ ReservationViewSet.list_ st (Some A) ∅
     = Ok (take 10 (ReservationViewSet.get_queryset st A)).
Proof.
  assert (forall page R,
    ReservationViewSet.list_ st (Some A) query_params = Ok page ->
    R ∈ page -> Reservation.user R = A /\ R ∈ reservations st) as Hown.
  { intros page R Hl HR. cbn in Hl.
    apply paginate_queryset_subseteq in Hl. apply Hl in HR.
    unfold ReservationViewSet.get_queryset in HR.
    apply list_elem_of_filter in HR. exact HR. }
  split; [exact Hown|]. split; [|split].
  - intros page R B Hl HB Hne HR. destruct (Hown page R Hl HR). congruence.
  - reflexivity.
  - cbn. apply paginate_queryset_first_page.
Qed.

Lemma C5_listReservations_witness :
  ReservationViewSet.list_ scenario_store (Some 7) ∅
  = Ok [Reservation.Make 1 evening 7]
  /\ Reservation.user (Reservation.Make 1 evening 7) = 7
  /\ Reservation.Make 1 evening 7 ∈ reservations scenario_store.
Proof.
  assert (ReservationViewSet.list_ scenario_store (Some 7) ∅
          = Ok [Reservation.Make 1 evening 7]) as Hl
    by (vm_compute; reflexivity).
  split; [exact Hl|].
  apply (proj1 (C5_listReservations_only_own scenario_store 7 ∅)
           [Reservation.Make 1 evening 7] (Reservation.Make 1 evening 7) Hl).
  apply list_elem_of_here.
Defined.

(** ** Malformed filter parameters *)

(** C10: malformed filter parameters are not answered with a
    ValidationError.  Whatever the store holds, a non-integer token in the
    [genres] or [actors] parameter of listPlays, a non-integer [play]
    parameter of listPerformances, and a [date] parameter that is not in
    the [%Y-%m-%d] format each end the request with Python's ValueError
    raised by the conversion. *)
Theorem C10_malformed_filters_raise (st : Store) :
  PlayViewSet.list_ st {["genres" := "1,x"]} = Raise ValueError
  /\ PlayViewSet.list_ st {["actors" := "2,"]} = Raise ValueError
  /\ PerformanceViewSet.list_ st {["play" := "abc"]} = Raise ValueError
  /\ PerformanceViewSet.list_ st {["date" := "01.05.2024"]} = Raise ValueError
  /\ PlayViewSet._params_to_ints "1,x" = Raise ValueError
  /\ Py.int "abc" = Raise ValueError
  /\ Datetime.strptime_date "01.05.2024" = Raise ValueError
  /\ ~ is_validation_error (@Raise (list Play.t) ValueError)
  /\ ~ is_validation_error (@Raise (list PerformanceViewSet.Row) ValueError).
Proof.
  repeat split; try (vm_compute; reflexivity);
    intros [why Hwhy]; discriminate.
Qed.

(** ** Filtered listing of plays *)

Lemma prefix_true_iff (needle hay : string) :
  String.prefix needle hay = true <-> exists post, hay = needle +:+ post.
Proof.
  revert hay. induction needle as [|c needle IH]; intros hay.
  - split; [intros _; exists hay; reflexivity|destruct hay; reflexivity].
  - destruct hay as [|d hay]; cbn; [split; [discriminate|intros [? [=]]]|].
    destruct (ascii_dec c d) as [->|Hne].
    + rewrite IH. split; intros [post Hpost]; exists post.
      * cbn. by rewrite Hpost.
      * by injection Hpost.
    + split; [discriminate|]. intros [post [= ? ?]]. congruence.
Qed.

Lemma contains_true_iff (needle hay : string) :
  Lookup.contains needle hay = true <->
  exists pre post, hay = pre +:+ needle +:+ post.
Proof.
  induction hay as [|d hay IH]; cbn [Lookup.contains];
    rewrite orb_true_iff, prefix_true_iff.
  - split.
    + intros [[post Hpost]|[=]]. exists "", post. exact Hpost.
    + intros (pre & post & Hpp). left. destruct pre; [|discriminate].
      exists post. exact Hpp.
  - rewrite IH. split.
    + intros [[post Hpost]|(pre & post & Hpp)].
      * exists "", post. exact Hpost.
      * exists (String d pre), post. by rewrite Hpp.
    + intros (pre & post & Hpp). destruct pre as [|c pre].
      * left. exists post. exact Hpp.
      * right. injection Hpp as -> Hpp. eauto.
Qed.

Lemma icontains_true_iff (value pattern : string) :
  Lookup.icontains value pattern = true <->
  contains_ignoring_case value pattern.
Proof. apply contains_true_iff. Qed.

Lemma filter_related_in_elem links ids queryset p :
  p ∈ PlayViewSet.filter_related_in links ids queryset <->
  p ∈ queryset /\ exists other, other ∈ ids /\ (Play.id p, other) ∈ links.
Proof.
  unfold PlayViewSet.filter_related_in, Lookup.in_.
  rewrite list_elem_of_bind. split.
  - intros (q & Hp & Hq). apply list_elem_of_bind in Hp as ([a b] & Hp & Hl).
    cbn in Hp. destruct (bool_decide (a = Play.id q)) eqn:Ea;
      [|by apply elem_of_nil in Hp].
    destruct (bool_decide (b ∈ ids)) eqn:Eb; [|by apply elem_of_nil in Hp].
    apply list_elem_of_singleton in Hp as ->.
    apply bool_decide_eq_true in Ea as ->. apply bool_decide_eq_true in Eb.
    eauto.
  - intros (Hp & other & Hother & Hlink). exists p. split; [|exact Hp].
    apply list_elem_of_bind. exists (Play.id p, other). split; [|exact Hlink].
    cbn. rewrite !bool_decide_eq_true_2 by done. apply list_elem_of_here.
Qed.

Lemma ascii_compare_N (x y : ascii) :
  Ascii.compare x y = N.compare (N_of_ascii x) (N_of_ascii y).
Proof. reflexivity. Qed.

Lemma string_compare_trans_le (a b c : string) :
  String.compare a b <> Gt -> String.compare b c <> Gt ->
  String.compare a c <> Gt.
Proof.
  revert b c. induction a as [|x a IH]; intros [|y b] [|z c]; cbn;
    try congruence.
  rewrite !ascii_compare_N.
  destruct (N.compare_spec (N_of_ascii x) (N_of_ascii y)) as [Exy|Lxy|Gxy];
    destruct (N.compare_spec (N_of_ascii y) (N_of_ascii z)) as [Eyz|Lyz|Gyz];
    destruct (N.compare_spec (N_of_ascii x) (N_of_ascii z)) as [Exz|Lxz|Gxz];
    try congruence; try lia.
  apply IH.
Qed.

#[global] Instance title_le_total : Total PlayViewSet.title_le.
Proof. intros p q. apply String.leb_total. Qed.

#[global] Instance title_le_trans : Transitive PlayViewSet.title_le.
Proof.
  intros p q r. unfold PlayViewSet.title_le, String.leb. intros Hpq Hqr.
  pose proof (string_compare_trans_le (Play.title p) (Play.title q)
                (Play.title r)) as Ht.
  destruct (String.compare (Play.title p) (Play.title q)),
    (String.compare (Play.title q) (Play.title r)),
    (String.compare (Play.title p) (Play.title r));
    try reflexivity; try discriminate; exfalso; apply Ht; congruence.
Qed.

Lemma order_distinct_spec (queryset : list Play.t) :
  (forall p, p ∈ PlayViewSet.order_by_title (PlayViewSet.distinct queryset)
             <-> p ∈ queryset)
  /\ NoDup (PlayViewSet.order_by_title (PlayViewSet.distinct queryset))
  /\ StronglySorted PlayViewSet.title_le
       (PlayViewSet.order_by_title (PlayViewSet.distinct queryset)).
Proof.
  unfold PlayViewSet.order_by_title, PlayViewSet.distinct.
  split; [|split].
  - intros p. rewrite merge_sort_Permutation. apply elem_of_remove_dups.
  - rewrite merge_sort_Permutation. apply NoDup_remove_dups.
  - apply StronglySorted_merge_sort; apply _.
Qed.

(** C7: listPlays combines the supplied filters with AND.  When the
    [genres] and [actors] parameters read as id lists, the listing returns,
    and a play is in the result iff it is a stored play whose title
    contains the [title] parameter ignoring case (when given), which is
    linked to at least one of the genre ids (when given) and to at least
    one of the actor ids (when given); the result holds no play twice and
    is sorted by title ascending.  A parameter that is absent or empty is
    not given. *)
Theorem C7_listPlays_filters
    (st : Store) (query_params : gmap string string)
    (genre_ids actor_ids : option (list Z)) :
  ids_param "genres" query_params = Ok genre_ids ->
  ids_param "actors" query_params = Ok actor_ids ->
  exists result,
    PlayViewSet.list_ st query_params = Ok result
    /\ (forall p,
          p ∈ result <->
          p ∈ plays st
          /\ (forall t, Py.truthy (query_params !! "title") = Some t ->
                exists pre post,
                  Lookup.lower (Play.title p)
                  = pre +:+ Lookup.lower t +:+ post)
          /\ (forall ids, genre_ids = Some ids ->
                exists g, g ∈ ids /\ (Play.id p, g) ∈ play_genres st)
          /\ (forall ids, actor_ids = Some ids ->
                exists a, a ∈ ids /\ (Play.id p, a) ∈ play_actors st))
    /\ NoDup result
    /\ StronglySorted
         (fun p q => String.leb (Play.title p) (Play.title q) = true) result.
Proof.
  unfold ids_param, PlayViewSet.list_, PlayViewSet.get_queryset.
  intros Hg Ha.
  destruct (Py.truthy (query_params !! "title")) as [t|];
    (destruct (Py.truthy (query_params !! "genres")) as [gs|];
     [destruct (PlayViewSet._params_to_ints gs) as [gids|]; [|discriminate]|]);
    (destruct (Py.truthy (query_params !! "actors")) as [acs|];
     [destruct (PlayViewSet._params_to_ints acs) as [aids|]; [|discriminate]|]);
    cbn in Hg, Ha; simplify_eq; cbn;
    (eexists; split; [reflexivity|]);
    match goal with
    | |- context [PlayViewSet.order_by_title (PlayViewSet.distinct ?q)] =>
        destruct (order_distinct_spec q) as (Hin & Hnd & Hsorted)
    end;
    (split; [|split; [exact Hnd|exact Hsorted]]);
    intros p; rewrite Hin;
    rewrite ?filter_related_in_elem, ?list_elem_of_filter,
      ?Is_true_true, ?icontains_true_iff;
    unfold contains_ignoring_case;
    (split;
     [intros H; repeat split; intros; simplify_eq; tauto
     |intros (Hp & Ht & Hgs & Has);
      repeat split; eauto]).
Qed.

Lemma C7_listPlays_witness :
  exists result,
    PlayViewSet.list_ scenario_store {["genres" := "1,2"; "title" := "AM"]}
    = Ok result
    /\ (forall p,
          p ∈ result <->
          p ∈ plays scenario_store
          /\ (forall t,
                Py.truthy (({["genres" := "1,2"; "title" := "AM"]}
                             : gmap string string) !! "title") = Some t ->
                exists pre post,
                  Lookup.lower (Play.title p)
                  = pre +:+ Lookup.lower t +:+ post)
          /\ (forall ids, Some [1; 2] = Some ids ->
                exists g, g ∈ ids /\ (Play.id p, g) ∈ play_genres scenario_store)
          /\ (forall ids : list Z, None = Some ids ->
                exists a, a ∈ ids /\ (Play.id p, a) ∈ play_actors scenario_store))
    /\ NoDup result
    /\ StronglySorted
         (fun p q => String.leb (Play.title p) (Play.title q) = true) result.
Proof.
  apply (C7_listPlays_filters scenario_store
           {["genres" := "1,2"; "title" := "AM"]} (Some [1; 2]) None);
    vm_compute; reflexivity.
Defined.

(** ** Creating a reservation *)

(** Unfolds the monadic plumbing of a handler applied to a store. *)
Ltac handler_unfold :=
  repeat progress
    (unfold mbind, mret, Handler_bind, Handler_ret, read, raise, write, lift,
       create_with, outcome, atomic;
     cbv beta).

Lemma nextval_eq table st :
  nextval table st = (bump table st, Ok (next_pk table st)).
Proof. reflexivity. Qed.

Lemma validate_seats_ok taken ts :
  ReservationSerializer.validate_seats taken ts = Ok tt <->
  NoDup (ReservationSerializer.coords <$> ts)
  /\ forall t, t ∈ ts -> ReservationSerializer.coords t ∉ taken.
Proof.
  revert taken. induction ts as [|t ts IH]; intros taken; cbn.
  - split; [intros _; split; [constructor|]|reflexivity].
    intros t Ht. by apply elem_of_nil in Ht.
  - case_bool_decide as Hin.
    + split; [discriminate|]. intros [_ Hfresh]. exfalso.
      apply (Hfresh t); [apply list_elem_of_here|exact Hin].
    + rewrite IH, NoDup_cons. split.
      * intros [Hnd Hfresh]. split; [split; [|exact Hnd]|].
        -- intros Ht. apply list_elem_of_fmap in Ht as (t' & Heq & Ht').
           apply (Hfresh t' Ht'). rewrite <- Heq. apply list_elem_of_here.
        -- intros t' Ht'. apply elem_of_cons in Ht' as [->|Ht']; [exact Hin|].
           intros Htaken. apply (Hfresh t' Ht'). by apply list_elem_of_further.
      * intros [[Hnotin Hnd] Hfresh]. split; [exact Hnd|].
        intros t' Ht' Htaken. apply elem_of_cons in Htaken as [Heq|Htaken].
        -- apply Hnotin. rewrite <- Heq. by apply list_elem_of_fmap_2.
        -- apply (Hfresh t'); [by apply list_elem_of_further|exact Htaken].
Qed.

Lemma validate_seats_error taken ts e :
  ReservationSerializer.validate_seats taken ts = Raise e ->
  e = ValidationError seat_taken.
Proof.
  revert taken. induction ts as [|t ts IH]; intros taken; cbn; [discriminate|].
  case_bool_decide; [congruence|apply IH].
Qed.

Lemma traverse_ok {A B} (f : A -> Result B) xs ys :
  traverse f xs = Ok ys -> Forall (fun x => exists y, f x = Ok y) xs.
Proof.
  revert ys. induction xs as [|x xs IH]; intros ys; cbn; [constructor|].
  destruct (f x) as [y|e] eqn:Hx; [|discriminate]. cbn.
  destruct (traverse f xs) as [ys'|e]; [|discriminate]. cbn. intros _.
  constructor; eauto.
Qed.

Lemma traverse_error {A B} (f : A -> Result B) xs e :
  traverse f xs = Raise e -> exists x, x ∈ xs /\ f x = Raise e.
Proof.
  induction xs as [|x xs IH]; cbn; [discriminate|].
  destruct (f x) as [y|e'] eqn:Hx; cbn.
  - destruct (traverse f xs) as [ys'|e'']; [discriminate|]. cbn.
    intros [= <-]. destruct IH as (x' & Hx' & Hf); [reflexivity|].
    exists x'. split; [by apply list_elem_of_further|exact Hf].
  - intros [= <-]. exists x. split; [apply list_elem_of_here|exact Hx].
Qed.

Lemma traverse_all_ok {A} (f : A -> Result unit) xs :
  Forall (fun x => f x = Ok tt) xs -> exists ys, traverse f xs = Ok ys.
Proof.
  induction 1 as [|x xs Hx _ [ys IH]]; cbn; [eauto|].
  rewrite Hx, IH. cbn. eauto.
Qed.

Lemma validate_ticket_ok st t :
  ReservationSerializer.validate_ticket st t = Ok tt <->
  seat_in_bounds st (ReservationSerializer.performance t)
    (ReservationSerializer.row t) (ReservationSerializer.seat t).
Proof.
  unfold ReservationSerializer.validate_ticket, seat_in_bounds.
  destruct (get_performance st _) as [p|];
    [|split; [discriminate|intros (? & ? & [=] & _)]].
  destruct (get_hall st _) as [hall|] eqn:Hh.
  2:{ split; [discriminate|]. intros (? & ? & [= <-] & Hh' & _). congruence. }
  destruct (_ && _) eqn:E.
  - rewrite !andb_true_iff, !Z.leb_le in E.
    split; [intros _|reflexivity]. exists p, hall.
    split; [reflexivity|]. split; [exact Hh|]. lia.
  - rewrite !andb_false_iff, !Z.leb_gt in E.
    split; [discriminate|]. intros (? & ? & [= <-] & Hh' & ? & ?).
    simplify_eq. lia.
Qed.

Lemma validate_ticket_error st t e :
  ReservationSerializer.validate_ticket st t = Raise e ->
  exists why, e = ValidationError why.
Proof.
  unfold ReservationSerializer.validate_ticket.
  repeat case_match; intros [=]; eauto.
Qed.

Lemma validate_seats_taken_equiv taken taken' ts :
  (forall c, c ∈ taken <-> c ∈ taken') ->
  ReservationSerializer.validate_seats taken ts = Ok tt <->
  ReservationSerializer.validate_seats taken' ts = Ok tt.
Proof.
  intros Heq. rewrite !validate_seats_ok.
  split; intros [Hnd Hfresh]; (split; [exact Hnd|]);
    intros t Ht Htaken; apply (Hfresh t Ht), Heq, Htaken.
Qed.

Lemma create_ticket_eq R t st :
  ReservationSerializer.create_ticket R t st
  = if bool_decide (ReservationSerializer.coords t
                    ∈ ReservationSerializer.sold_seats st)
    then (st, Raise (ValidationError seat_taken))
    else (ReservationSerializer.insert_ticket
            (Ticket.Make (next_pk "theatre_ticket" st)
               (ReservationSerializer.row t) (ReservationSerializer.seat t)
               (ReservationSerializer.performance t) (Reservation.id R))
            (bump "theatre_ticket" st),
          Ok tt).
Proof.
  unfold ReservationSerializer.create_ticket. handler_unfold.
  case_bool_decide; reflexivity.
Qed.

(** Inserting the tickets one by one succeeds exactly when step 2 of the
    validation accepts them, and then appends one ticket row per requested
    ticket; when an insertion is refused, earlier ones remain written. *)
Lemma for_each_create_ticket R ts st :
  match for_each (ReservationSerializer.create_ticket R) ts st with
  | (st', Ok _) =>
      ReservationSerializer.validate_seats
        (ReservationSerializer.sold_seats st) ts = Ok tt
      /\ exists seq' news,
           st' = set_sequences seq' (set_tickets (tickets st ++ news) st)
           /\ Forall2 (ticket_for (Reservation.id R)) news ts
           /\ forall table, table <> "theatre_ticket" ->
                seq' !! table = sequences st !! table
  | (_, Raise e) =>
      e = ValidationError seat_taken
      /\ ReservationSerializer.validate_seats
           (ReservationSerializer.sold_seats st) ts <> Ok tt
  end.
Proof.
  revert st. induction ts as [|t ts IH]; intros st.
  - cbn. split; [reflexivity|]. exists (sequences st), [].
    split; [|split; [constructor|reflexivity]].
    destruct st. cbn. by rewrite app_nil_r.
  - cbn [for_each]. unfold mbind, Handler_bind. rewrite create_ticket_eq.
    cbn [ReservationSerializer.validate_seats].
    case_bool_decide as Hin; [split; [reflexivity|discriminate]|].
    set (tk := Ticket.Make _ _ _ _ _).
    set (st1 := ReservationSerializer.insert_ticket tk _).
    assert (forall c, c ∈ ReservationSerializer.coords t
                            :: ReservationSerializer.sold_seats st
                      <-> c ∈ ReservationSerializer.sold_seats st1) as Heq.
    { intros c. unfold st1, ReservationSerializer.sold_seats. cbn.
      rewrite fmap_app, elem_of_app, elem_of_cons. cbn.
      rewrite list_elem_of_singleton. unfold Ticket.coords at 3. cbn.
      unfold ReservationSerializer.coords. tauto. }
    specialize (IH st1).
    destruct (for_each (ReservationSerializer.create_ticket R) ts st1)
      as [st' [[]|e]].
    + destruct IH as (Hval & seq' & news & -> & Hnews & Hseq).
      split; [by apply (validate_seats_taken_equiv _ _ _ Heq)|].
      exists seq', (tk :: news). split; [|split].
      * unfold st1. cbn. unfold set_sequences, set_tickets. cbn.
        by rewrite <- app_assoc.
      * constructor; [|exact Hnews]. by repeat split.
      * intros table Hne. rewrite Hseq by exact Hne. unfold st1. cbn.
        by rewrite lookup_insert_ne.
    + destruct IH as [-> Hval]. split; [reflexivity|].
      intros Hok. apply Hval. by apply (validate_seats_taken_equiv _ _ _ Heq).
Qed.

(** The [user] passed by the view replaces whatever the payload held. *)
Lemma saved_data_lookup (user : Z) (sent : option Z)
    (ts : list ReservationSerializer.TicketData) :
  let validated_data : gmap string ReservationSerializer.Field :=
    <["tickets" := ReservationSerializer.FTickets ts]>
      (match sent with
       | Some u => {["user" := ReservationSerializer.FUser u]}
       | None => ∅
       end) in
  let kwargs : gmap string ReservationSerializer.Field :=
    {["user" := ReservationSerializer.FUser user]} in
  (kwargs ∪ validated_data) !! "user" = Some (ReservationSerializer.FUser user)
  /\ (kwargs ∪ validated_data) !! "tickets"
     = Some (ReservationSerializer.FTickets ts).
Proof.
  cbn. split.
  - apply lookup_union_Some_l, lookup_singleton_eq.
  - rewrite lookup_union_r by (by apply lookup_singleton_ne).
    apply lookup_insert_eq.
Qed.

Lemma is_valid_ok st data vd :
  ReservationSerializer.is_valid st data = Ok vd ->
  Forall (fun t => ReservationSerializer.validate_ticket st t = Ok tt)
    (ReservationSerializer.tickets data)
  /\ ReservationSerializer.validate_seats
       (ReservationSerializer.sold_seats st)
       (ReservationSerializer.tickets data) = Ok tt
  /\ vd = <["tickets" := ReservationSerializer.FTickets
                           (ReservationSerializer.tickets data)]>
            (match ReservationSerializer.user data with
             | Some u => {["user" := ReservationSerializer.FUser u]}
             | None => ∅
             end).
Proof.
  unfold ReservationSerializer.is_valid.
  destruct (traverse _ _) as [us|e] eqn:Ht; [|discriminate]. cbn.
  destruct (ReservationSerializer.validate_seats _ _) as [[]|e] eqn:Hs;
    [|discriminate]. cbn. intros [= <-].
  split; [|split; reflexivity].
  apply traverse_ok in Ht. eapply Forall_impl; [exact Ht|].
  intros t [[] Hy]. exact Hy.
Qed.

Lemma is_valid_error st data e :
  ReservationSerializer.is_valid st data = Raise e ->
  exists why, e = ValidationError why.
Proof.
  unfold ReservationSerializer.is_valid.
  destruct (traverse _ _) as [us|e'] eqn:Ht; cbn.
  - destruct (ReservationSerializer.validate_seats _ _) as [[]|e''] eqn:Hs;
      cbn; [discriminate|]. intros [= <-].
    apply validate_seats_error in Hs. eauto.
  - intros [= <-]. apply traverse_error in Ht as (t & _ & Ht).
    by apply validate_ticket_error in Ht.
Qed.

Lemma reservation_create_anonymous now data st :
  ReservationViewSet.create None now data st = (st, Raise PermissionDenied).
Proof. reflexivity. Qed.

Lemma reservation_create_invalid user now data st e :
  ReservationSerializer.is_valid st data = Raise e ->
  ReservationViewSet.create (Some user) now data st = (st, Raise e).
Proof.
  intros Hv. unfold ReservationViewSet.create. handler_unfold.
  cbn [ReservationViewSet.check_permissions]. by rewrite Hv.
Qed.

Lemma reservation_create_valid user now data st vd :
  ReservationSerializer.is_valid st data = Ok vd ->
  exists seq' news,
    ReservationViewSet.create (Some user) now data st
    = (set_sequences seq'
         (set_tickets (tickets st ++ news)
            (insert_reservation
               (Reservation.Make (next_pk "theatre_reservation" st) now user)
               st)),
       Ok (Reservation.Make (next_pk "theatre_reservation" st) now user))
    /\ Forall2 (ticket_for (next_pk "theatre_reservation" st)) news
         (ReservationSerializer.tickets data)
    /\ other_sequences_kept (sequences st) seq'.
Proof.
  intros Hv. destruct (is_valid_ok _ _ _ Hv) as (Hbounds & Hseats & ->).
  destruct (saved_data_lookup user (ReservationSerializer.user data)
              (ReservationSerializer.tickets data)) as [Hu Ht].
  cbn in Hu, Ht.
  unfold ReservationViewSet.create, ReservationViewSet.perform_create,
    ReservationSerializer.save, ReservationSerializer.create.
  handler_unfold. cbn [ReservationViewSet.check_permissions].
  rewrite Hv, Hu, Ht, nextval_eq.
  set (R := Reservation.Make _ _ _).
  set (st2 := insert_reservation R _).
  pose proof (for_each_create_ticket R (ReservationSerializer.tickets data) st2)
    as Heach.
  destruct (for_each _ _ st2) as [st' [[]|e]].
  - destruct Heach as (_ & seq' & news & -> & Hnews & Hseq).
    exists seq', news. split; [reflexivity|]. split; [exact Hnews|].
    intros table Hn1 Hn2. rewrite Hseq by exact Hn1. unfold st2. cbn.
    by rewrite lookup_insert_ne.
  - destruct Heach as [_ Hbad]. exfalso. apply Hbad. exact Hseats.
Qed.

Lemma kwargs_override (user : Z) (sent : option Z)
    (ts : list ReservationSerializer.TicketData) :
  ({["user" := ReservationSerializer.FUser user]}
     ∪ <["tickets" := ReservationSerializer.FTickets ts]>
         (match sent with
          | Some u => {["user" := ReservationSerializer.FUser u]}
          | None => ∅
          end) : gmap string ReservationSerializer.Field)
  = <["tickets" := ReservationSerializer.FTickets ts]>
      {["user" := ReservationSerializer.FUser user]}.
Proof.
  apply map_eq. intros k. rewrite lookup_union.
  destruct (decide (k = "user")) as [->|Hu].
  - rewrite lookup_singleton_eq, !lookup_insert_ne by done.
    rewrite lookup_singleton_eq. by destruct (_ !! "user").
  - rewrite lookup_singleton_ne by done.
    destruct (decide (k = "tickets")) as [->|Ht].
    + by rewrite !lookup_insert_eq.
    + rewrite !lookup_insert_ne by done. rewrite lookup_singleton_ne by done.
      destruct sent; [by rewrite lookup_singleton_ne|by rewrite lookup_empty].
Qed.

(** C6: the owner of a created reservation is the authenticated caller,
    whatever [user] entry the payload carries.  Two requests of the same
    caller that differ only in the client-supplied user value have the same
    outcome and leave the same store, and a reservation that is created is
    persisted with the caller as its user. *)
Theorem C6_owner_is_caller
    (st : Store) (caller : Z) (now : Datetime.datetime)
    (tickets_data : list ReservationSerializer.TicketData)
    (sent sent' : option Z) :
  ReservationViewSet.create (Some caller) now
    (ReservationSerializer.MkPayload sent tickets_data) st
  = ReservationViewSet.create (Some caller) now
      (ReservationSerializer.MkPayload sent' tickets_data) st
  /\ forall st' R,
       ReservationViewSet.create (Some caller) now
         (ReservationSerializer.MkPayload sent tickets_data) st = (st', Ok R) ->
       Reservation.user R = caller /\ R ∈ reservations st'.
Proof.
  split.
  - unfold ReservationViewSet.create, ReservationViewSet.perform_create,
      ReservationSerializer.save, ReservationSerializer.is_valid.
    handler_unfold. cbn [ReservationViewSet.check_permissions
      ReservationSerializer.tickets ReservationSerializer.user].
    destruct (traverse _ _) as [us|e]; [|reflexivity].
    cbn [Result_bind].
    destruct (ReservationSerializer.validate_seats _ _) as [[]|e];
      [|reflexivity].
    cbn [Result_bind]. by rewrite !kwargs_override.
  - intros st' R Hc.
    destruct (ReservationSerializer.is_valid st
                (ReservationSerializer.MkPayload sent tickets_data))
      as [vd|e] eqn:Hv.
    + destruct (reservation_create_valid caller now _ st vd Hv)
        as (seq' & news & Hc' & _ & _).
      rewrite Hc' in Hc. injection Hc as <- <-. split; [reflexivity|].
      cbn. apply elem_of_app. right. apply list_elem_of_here.
    + rewrite (reservation_create_invalid caller now _ st e Hv) in Hc.
      discriminate.
Qed.

Lemma C6_owner_is_caller_witness :
  ReservationViewSet.create (Some 8) evening
    (ReservationSerializer.MkPayload (Some 7) [seat_at 3 3 1]) scenario_store
  = (run [CreateReservation (Some 8) evening
            (ReservationSerializer.MkPayload None [seat_at 3 3 1])]
       scenario_store,
     Ok (Reservation.Make 2 evening 8))
  /\ Reservation.user (Reservation.Make 2 evening 8) = 8
  /\ Reservation.Make 2 evening 8
     ∈ reservations
         (run [CreateReservation (Some 8) evening
                 (ReservationSerializer.MkPayload None [seat_at 3 3 1])]
            scenario_store).
Proof.
  assert (ReservationViewSet.create (Some 8) evening
            (ReservationSerializer.MkPayload (Some 7) [seat_at 3 3 1])
            scenario_store
          = (run [CreateReservation (Some 8) evening
                    (ReservationSerializer.MkPayload None [seat_at 3 3 1])]
               scenario_store,
             Ok (Reservation.Make 2 evening 8))) as Hc
    by (vm_compute; reflexivity).
  split; [exact Hc|].
  exact (proj2 (C6_owner_is_caller scenario_store 8 evening [seat_at 3 3 1]
                  (Some 7) None) _ _ Hc).
Defined.

Lemma is_valid_iff st data :
  (exists vd, ReservationSerializer.is_valid st data = Ok vd) <->
  Forall (fun t =>
      seat_in_bounds st (ReservationSerializer.performance t)
        (ReservationSerializer.row t) (ReservationSerializer.seat t))
    (ReservationSerializer.tickets data)
  /\ NoDup (ReservationSerializer.coords <$> ReservationSerializer.tickets data)
  /\ forall t, t ∈ ReservationSerializer.tickets data ->
       ReservationSerializer.coords t ∉ ReservationSerializer.sold_seats st.
Proof.
  split.
  - intros [vd Hv]. apply is_valid_ok in Hv as (Hb & Hs & _).
    apply validate_seats_ok in Hs. split; [|exact Hs].
    eapply Forall_impl; [exact Hb|]. intros t. apply validate_ticket_ok.
  - intros (Hb & Hnd & Hfresh). unfold ReservationSerializer.is_valid.
    destruct (traverse_all_ok (ReservationSerializer.validate_ticket st)
                (ReservationSerializer.tickets data)) as [us ->].
    { eapply Forall_impl; [exact Hb|]. intros t. apply validate_ticket_ok. }
    cbn. rewrite (proj2 (validate_seats_ok _ _) (conj Hnd Hfresh)). cbn. eauto.
Qed.

(** C3: createReservation is atomic.  Whatever the request, either it
    returns the reservation, and the store is the prior store with that
    reservation and one ticket row per requested ticket appended (nothing
    else changes but the primary-key sequences), or it raises and the store
    is the prior store.  For an authenticated caller, a request holding a
    ticket out of its hall's bounds, a ticket on a seat already sold, or two
    tickets on one seat raises ValidationError and persists nothing; a
    request whose tickets are all within bounds and on distinct free seats
    is persisted. *)
Theorem C3_createReservation_atomic
    (st : Store) (request_user : option Z) (now : Datetime.datetime)
    (data : ReservationSerializer.Payload) :
  ((exists R seq' news,
      ReservationViewSet.create request_user now data st
      = (set_sequences seq'
           (set_tickets (tickets st ++ news) (insert_reservation R st)),
         Ok R)
      /\ Forall2 (ticket_for (Reservation.id R)) news
           (ReservationSerializer.tickets data)
      /\ Some (Reservation.user R) = request_user)
   \/ (exists e, ReservationViewSet.create request_user now data st
                 = (st, Raise e)))
  /\ (is_Some request_user ->
      (exists t,
         t ∈ ReservationSerializer.tickets data
         /\ (~ seat_in_bounds st (ReservationSerializer.performance t)
                 (ReservationSerializer.row t) (ReservationSerializer.seat t)
             \/ ReservationSerializer.coords t
                ∈ Ticket.coords <$> tickets st))
      \/ ~ NoDup (ReservationSerializer.coords
                    <$> ReservationSerializer.tickets data) ->
      exists why,
        ReservationViewSet.create request_user now data st
        = (st, Raise (ValidationError why)))
  /\ (is_Some request_user ->
      Forall (fun t =>
          seat_in_bounds st (ReservationSerializer.performance t)
            (ReservationSerializer.row t) (ReservationSerializer.seat t))
        (ReservationSerializer.tickets data) ->
      NoDup (ReservationSerializer.coords
               <$> ReservationSerializer.tickets data) ->
      (forall t, t ∈ ReservationSerializer.tickets data ->
         ReservationSerializer.coords t ∉ Ticket.coords <$> tickets st) ->
      exists st' R,
        ReservationViewSet.create request_user now data st = (st', Ok R)).
Proof.
  split; [|split].
  - destruct request_user as [user|].
    2:{ right. exists PermissionDenied. apply reservation_create_anonymous. }
    destruct (ReservationSerializer.is_valid st data) as [vd|e] eqn:Hv.
    + left. destruct (reservation_create_valid user now data st vd Hv)
        as (seq' & news & Hc & Hnews & _).
      eexists _, seq', news.
      split; [exact Hc|]. split; [exact Hnews|reflexivity].
    + right. exists e. by apply reservation_create_invalid.
  - intros [user ->] Hbad.
    destruct (ReservationSerializer.is_valid st data) as [vd|e] eqn:Hv.
    + exfalso.
      destruct (proj1 (is_valid_iff st data) (ex_intro _ vd Hv))
        as (Hb & Hnd & Hfresh).
      destruct Hbad as [(t & Ht & [Hout|Hsold])|Hdup].
      * rewrite Forall_forall in Hb. exact (Hout (Hb t Ht)).
      * exact (Hfresh t Ht Hsold).
      * exact (Hdup Hnd).
    + destruct (is_valid_error _ _ _ Hv) as [why ->].
      exists why. by apply reservation_create_invalid.
  - intros [user ->] Hb Hnd Hfresh.
    destruct (proj2 (is_valid_iff st data)) as [vd Hv]; [by repeat split|].
    destruct (reservation_create_valid user now data st vd Hv)
      as (seq' & news & Hc & _ & _).
    eauto.
Qed.

Lemma C3_createReservation_witness :
  exists why,
    ReservationViewSet.create (Some 8) evening
      (ReservationSerializer.MkPayload None [seat_at 3 3 1; seat_at 1 1 1])
      scenario_store
    = (scenario_store, Raise (ValidationError why)).
Proof.
  apply (proj1 (proj2 (C3_createReservation_atomic scenario_store (Some 8)
           evening
           (ReservationSerializer.MkPayload None
              [seat_at 3 3 1; seat_at 1 1 1])))).
  - by exists 8.
  - left. exists (seat_at 1 1 1). split; [|right]; vm_compute;
      repeat constructor.
Defined.

(** ** Creating a hall *)








(** ** Requests refine the effect relation *)

Lemma effect_create_genre fixed name st :
  effect fixed st (after (CreateGenre name) st).
Proof.
  unfold after, dispatch, GenreViewSet.create, GenreSerializer.save.
  handler_unfold.
  destruct (GenreSerializer.is_valid st name) as [name'|e];
    [|apply effect_none].
  rewrite nextval_eq. cbn [fst].
  apply (effect_catalog fixed st
           (genres st ++ [Genre.Make (next_pk "theatre_genre" st) name'])
           (actors st) (plays st) (play_genres st) (play_actors st)
           (<["theatre_genre" := next_pk "theatre_genre" st]> (sequences st)));
    [reflexivity|by rewrite lookup_insert_ne..].
Qed.

Lemma effect_create_actor fixed first_name last_name st :
  effect fixed st (after (CreateActor first_name last_name) st).
Proof.
  unfold after, dispatch, ActorViewSet.create, ActorSerializer.save.
  handler_unfold.
  destruct (ActorSerializer.is_valid first_name last_name) as [vd|e];
    [|apply effect_none].
  rewrite nextval_eq. cbn [fst].
  apply (effect_catalog fixed st (genres st)
           (actors st ++ [Actor.Make (next_pk "theatre_actor" st) vd.1 vd.2])
           (plays st) (play_genres st) (play_actors st)
           (<["theatre_actor" := next_pk "theatre_actor" st]> (sequences st)));
    [reflexivity|by rewrite lookup_insert_ne..].
Qed.

Lemma effect_create_hall fixed data st :
  effect fixed st (after (CreateHall data) st).
Proof.
  unfold after, dispatch, TheatreHallViewSet.create,
    TheatreHallSerializer.save.
  handler_unfold.
  destruct (TheatreHallSerializer.is_valid data) as [[[name rows] seats]|e];
    [|apply effect_none].
  rewrite nextval_eq. cbn [fst]. apply effect_hall.
Qed.

Lemma effect_create_play fixed data st :
  effect fixed st (after (CreatePlay data) st).
Proof.
  unfold after, dispatch, PlayViewSet.create, PlaySerializer.create.
  handler_unfold.
  destruct (PlaySerializer.is_valid st data) as [vd|e]; [|apply effect_none].
  rewrite nextval_eq. cbn [fst].
  apply (effect_catalog fixed st (genres st) (actors st)
           (plays st ++ [Play.Make (next_pk "theatre_play" st)
                           (PlaySerializer.title vd)
                           (PlaySerializer.description vd) None])
           (play_genres st
            ++ PlaySerializer.links (next_pk "theatre_play" st)
                 (PlaySerializer.genres vd))
           (play_actors st
            ++ PlaySerializer.links (next_pk "theatre_play" st)
                 (PlaySerializer.actors vd))
           (<["theatre_play" := next_pk "theatre_play" st]> (sequences st)));
    [|by rewrite lookup_insert_ne..].
  rewrite fmap_app. intros pk Hpk. apply elem_of_app. by left.
Qed.

Lemma effect_update_play fixed query_params pk data st :
  effect fixed st (after (UpdatePlay query_params pk data) st).
Proof.
  unfold after, dispatch, PlayViewSet.update, PlaySerializer.update.
  handler_unfold.
  destruct (PlayViewSet.get_object st query_params pk) as [instance|e];
    [|apply effect_none].
  destruct (PlaySerializer.is_valid st data) as [vd|e]; [|apply effect_none].
  cbn [fst].
  match goal with
  | |- effect _ _ (set_plays ?ps ?pgs ?pas _) =>
      apply (effect_catalog fixed st (genres st) (actors st) ps pgs pas
               (sequences st)); [|reflexivity..]
  end.
  rewrite <- list_fmap_compose. intros k Hk.
  apply list_elem_of_fmap in Hk as (p & -> & Hp).
  apply list_elem_of_fmap. exists p. split; [|exact Hp].
  cbn. by case_bool_decide.
Qed.

Lemma related_field_ok pks pk pk' :
  Fields.related_field pks pk = Ok pk' -> pk' = pk /\ pk ∈ pks.
Proof.
  unfold Fields.related_field. case_bool_decide; intros [=]. by subst.
Qed.

Lemma performance_is_valid_ok st data vd :
  PerformanceSerializer.is_valid st data = Ok vd ->
  vd = data
  /\ (forall play, PerformanceSerializer.play data = Some play ->
        play ∈ Play.id <$> plays st)
  /\ (forall hall, PerformanceSerializer.theatre_hall data = Some hall ->
        hall ∈ TheatreHall.id <$> halls st).
Proof.
  unfold PerformanceSerializer.is_valid, PerformanceSerializer.optional.
  destruct data as [[play|] [hall|] show_time]; cbn;
    repeat match goal with
    | |- context [Fields.related_field ?pks ?pk] =>
        let H := fresh "H" in
        destruct (Fields.related_field pks pk) eqn:H; cbn;
        [apply related_field_ok in H as [-> H]|discriminate]
    end;
    intros [= <-]; (split; [reflexivity|]);
    split; intros ? [=]; by subst.
Qed.

Lemma effect_create_performance fixed data st :
  effect fixed st (after (CreatePerformance data) st).
Proof.
  unfold after, dispatch, PerformanceViewSet.create,
    PerformanceSerializer.create.
  handler_unfold.
  destruct (PerformanceSerializer.is_valid st data) as [vd|e] eqn:Hv;
    [|apply effect_none].
  apply performance_is_valid_ok in Hv as (-> & Hplay & Hhall).
  destruct data as [[play|] [hall|] [show_time|]]; try apply effect_none.
  cbn [PerformanceSerializer.required PerformanceSerializer.play
       PerformanceSerializer.theatre_hall PerformanceSerializer.show_time].
  rewrite nextval_eq. cbn [fst].
  apply (effect_performance fixed st play hall show_time); eauto.
Qed.

Lemma effect_update_performance fixed partial query_params pk data st :
  (fixed = true -> keeps_halls st (UpdatePerformance partial query_params pk data)) ->
  effect fixed st (after (UpdatePerformance partial query_params pk data) st).
Proof.
  intros Hkeep.
  unfold after, dispatch, PerformanceViewSet.update,
    PerformanceSerializer.update.
  handler_unfold.
  destruct (PerformanceViewSet.get_object st query_params pk) as [r|e] eqn:Hget;
    [|apply effect_none].
  apply performance_get_object_elem in Hget as (rows & Hq & Hr & Hpk).
  apply (performance_get_queryset_subset _ _ _ _ Hq), queryset_row in Hr.
  destruct Hr as (Hp & Hpl & Hpl' & Hh & Hh' & _).
  destruct (if partial then _ else _) as [[]|e]; [|apply effect_none].
  destruct (PerformanceSerializer.is_valid st data) as [vd|e] eqn:Hv;
    [|apply effect_none].
  apply performance_is_valid_ok in Hv as (-> & Hplay & Hhall).
  cbn [fst].
  set (old := PerformanceViewSet.performance r) in *.
  set (new := Performance.Make _ _ _ _).
  apply (effect_update fixed st old new Hp).
  - reflexivity.
  - unfold new. cbn. destruct (PerformanceSerializer.play data) as [play|];
      cbn; [by apply Hplay|].
    rewrite <- Hpl'. by apply list_elem_of_fmap_2.
  - unfold new. cbn.
    destruct (PerformanceSerializer.theatre_hall data) as [hall|];
      cbn; [by apply Hhall|].
    rewrite <- Hh'. by apply list_elem_of_fmap_2.
  - intros Hfixed. specialize (Hkeep Hfixed). cbn in Hkeep.
    rewrite Forall_forall in Hkeep.
    destruct (Hkeep old Hp Hpk) as [Hnone|[Hsame|Hnone]].
    + left. unfold new. cbn. by rewrite Hnone.
    + left. unfold new. cbn. by rewrite Hsame.
    + right. by rewrite Hpk.
Qed.

Lemma effect_destroy_performance fixed query_params pk st :
  effect fixed st (after (DestroyPerformance query_params pk) st).
Proof.
  unfold after, dispatch, PerformanceViewSet.destroy.
  handler_unfold.
  destruct (PerformanceViewSet.get_object st query_params pk) as [r|e];
    [|apply effect_none].
  cbn [fst]. apply effect_destroy.
Qed.

Lemma effect_create_reservation fixed request_user now data st :
  effect fixed st (after (CreateReservation request_user now data) st).
Proof.
  unfold after, dispatch. handler_unfold.
  destruct request_user as [user|];
    [|rewrite reservation_create_anonymous; apply effect_none].
  destruct (ReservationSerializer.is_valid st data) as [vd|e] eqn:Hv.
  2:{ rewrite (reservation_create_invalid _ _ _ _ _ Hv). apply effect_none. }
  destruct (reservation_create_valid user now data st vd Hv)
    as (seq' & news & -> & Hnews & Hseq).
  destruct (proj1 (is_valid_iff st data) (ex_intro _ vd Hv))
    as (Hb & Hnd & Hfresh).
  cbn [fst].
  assert (Ticket.coords <$> news
          = ReservationSerializer.coords
              <$> ReservationSerializer.tickets data) as Hcoords.
  { clear -Hnews. induction Hnews as [|t d news ds (Hr & Hs & Hp & _) _ IH];
      [reflexivity|].
    cbn. rewrite <- IH. f_equal.
    unfold Ticket.coords, ReservationSerializer.coords. congruence. }
  apply effect_reservation.
  - by rewrite Hcoords.
  - intros t Ht Hsold.
    assert (Ticket.coords t ∈ Ticket.coords <$> news) as Hc
      by (by apply list_elem_of_fmap_2).
    rewrite Hcoords in Hc. apply list_elem_of_fmap in Hc as (d & Hd & Hd').
    apply (Hfresh d Hd'). by rewrite <- Hd.
  - clear -Hnews Hb. induction Hnews as [|t d news ds (Hr & Hs & Hp & _) _ IH];
      [constructor|].
    apply Forall_cons in Hb as [Hd Hb]. constructor; [|by apply IH].
    by rewrite Hr, Hs, Hp.
  - by apply Hseq.
  - by apply Hseq.
Qed.

Lemma effect_after fixed r st :
  (fixed = true -> keeps_halls st r) -> effect fixed st (after r st).
Proof.
  intros Hkeep. destruct r.
  - apply effect_create_genre.
  - apply effect_create_actor.
  - apply effect_create_hall.
  - apply effect_create_play.
  - apply effect_update_play.
  - apply effect_create_performance.
  - by apply effect_update_performance.
  - apply effect_destroy_performance.
  - apply effect_create_reservation.
Qed.

(** ** The store invariant *)

Lemma keys_issued_ext table pks st st' :
  sequences st' !! table = sequences st !! table ->
  keys_issued table pks st -> keys_issued table pks st'.
Proof.
  unfold keys_issued, next_pk. intros ->. tauto.
Qed.

Lemma next_pk_bump table st :
  next_pk table (bump table st) = next_pk table st + 1.
Proof.
  unfold next_pk at 1. cbn. by rewrite lookup_insert_eq.
Qed.

Lemma keys_issued_insert table pks st st' :
  sequences st' !! table = Some (next_pk table st) ->
  keys_issued table pks st ->
  keys_issued table (pks ++ [next_pk table st]) st'.
Proof.
  intros Hseq [Hnd Hlt].
  assert (next_pk table st' = next_pk table st + 1) as Hnext
    by (unfold next_pk at 1; by rewrite Hseq).
  split.
  - apply NoDup_app. split; [exact Hnd|]. split; [|apply NoDup_singleton].
    intros pk Hpk Hnew. apply list_elem_of_singleton in Hnew as ->.
    rewrite Forall_forall in Hlt. specialize (Hlt _ Hpk). lia.
  - rewrite Hnext. apply Forall_app. split.
    + eapply Forall_impl; [exact Hlt|]. cbn. intros. lia.
    + repeat constructor. lia.
Qed.

Lemma keys_issued_sublist table pks pks' st :
  pks' `sublist_of` pks -> keys_issued table pks st ->
  keys_issued table pks' st.
Proof.
  intros Hsub [Hnd Hlt]. split; [by eapply sublist_NoDup|].
  rewrite Forall_forall in *. intros pk Hpk. apply Hlt.
  by eapply elem_of_sublist.
Qed.

Lemma replace_performance_ids new ps :
  Performance.id <$> replace_performance new ps = Performance.id <$> ps.
Proof.
  unfold replace_performance. rewrite <- list_fmap_compose.
  apply list_fmap_ext. intros i p _. cbn. by case_bool_decide.
Qed.

Lemma referential_integrity_mono (ps : list Performance.t) st st' :
  Play.id <$> plays st ⊆ Play.id <$> plays st' ->
  TheatreHall.id <$> halls st ⊆ TheatreHall.id <$> halls st' ->
  Forall (fun p =>
      Performance.play p ∈ Play.id <$> plays st
      /\ Performance.theatre_hall p ∈ TheatreHall.id <$> halls st) ps ->
  Forall (fun p =>
      Performance.play p ∈ Play.id <$> plays st'
      /\ Performance.theatre_hall p ∈ TheatreHall.id <$> halls st') ps.
Proof.
  intros Hpl Hh Hps. eapply Forall_impl; [exact Hps|].
  intros p [H1 H2]. split; auto.
Qed.

Lemma consistent_empty : consistent empty_store.
Proof. split; try split; cbn; constructor. Qed.

Lemma effect_consistent fixed st st' :
  effect fixed st st' -> consistent st -> consistent st'.
Proof.
  intros Heff [Hhalls Hperfs Hrefs Hseats].
  destruct Heff as [|gs acs ps pgs pas seq' Hplays Hs1 Hs2
                    |name rows seats
                    |play hall show_time Hplay Hhall
                    |old new Hold Hid Hplay Hhall _
                    |pk
                    |R news seq' Hnd Hfresh _ Hs1 Hs2].
  - by split.
  - split; cbn.
    + by apply (keys_issued_ext _ _ st).
    + by apply (keys_issued_ext _ _ st).
    + by apply (referential_integrity_mono _ st).
    + exact Hseats.
  - split; cbn.
    + rewrite fmap_app. apply (keys_issued_insert _ _ st); [|exact Hhalls].
      cbn. by rewrite lookup_insert_eq.
    + apply (keys_issued_ext _ _ st); [|exact Hperfs].
      cbn. by rewrite lookup_insert_ne.
    + apply (referential_integrity_mono _ st); [done| |exact Hrefs].
      cbn. rewrite fmap_app. intros k Hk. apply elem_of_app. by left.
    + exact Hseats.
  - split; cbn.
    + apply (keys_issued_ext _ _ st); [|exact Hhalls].
      cbn. by rewrite lookup_insert_ne.
    + rewrite fmap_app. apply (keys_issued_insert _ _ st); [|exact Hperfs].
      cbn. by rewrite lookup_insert_eq.
    + unfold referential_integrity. cbn. apply Forall_app. split.
      * exact Hrefs.
      * repeat constructor; assumption.
    + exact Hseats.
  - split; cbn.
    + exact Hhalls.
    + by rewrite replace_performance_ids.
    + unfold referential_integrity, replace_performance. cbn.
      apply Forall_fmap. eapply Forall_impl; [exact Hrefs|].
      intros p Hp. cbn. by case_bool_decide.
    + exact Hseats.
  - split; cbn.
    + exact Hhalls.
    + eapply keys_issued_sublist; [|exact Hperfs].
      apply fmap_sublist, sublist_filter.
    + unfold referential_integrity in *. cbn.
      rewrite Forall_forall in *. intros p Hp.
      apply Hrefs. apply list_elem_of_filter in Hp. tauto.
    + eapply sublist_NoDup; [exact Hseats|].
      apply fmap_sublist, sublist_filter.
  - split; cbn.
    + by apply (keys_issued_ext _ _ st).
    + by apply (keys_issued_ext _ _ st).
    + exact Hrefs.
    + rewrite fmap_app. apply NoDup_app. split; [exact Hseats|].
      split; [|exact Hnd].
      intros c Hc Hc'. apply list_elem_of_fmap in Hc' as (t & -> & Ht).
      by apply (Hfresh t Ht).
Qed.

Lemma reachable_consistent st : reachable st -> consistent st.
Proof.
  induction 1 as [|r st _ IH]; [apply consistent_empty|].
  apply (effect_consistent false st); [|exact IH].
  apply effect_after. discriminate.
Qed.

Lemma reachable_fixed_reachable st : reachable_fixed_halls st -> reachable st.
Proof. induction 1; by constructor. Qed.

(** ** No double booking *)

(** C2: no two persisted tickets share (performance, row, seat).  In every
    state reachable through the requests of the API, tickets at two
    distinct positions of the ticket table have different coordinates; and
    in any state, a reservation request of an authenticated caller that
    holds a ticket on a seat already sold for the same performance fails
    with ValidationError and leaves the store as it was. *)
Theorem C2_no_double_booking (st : Store) :
  reachable st ->
  (forall i j t u,
     tickets st !! i = Some t -> tickets st !! j = Some u -> i <> j ->
     (Ticket.performance t, Ticket.row t, Ticket.seat t)
     <> (Ticket.performance u, Ticket.row u, Ticket.seat u))
  /\ (forall user now data t sold,
        t ∈ ReservationSerializer.tickets data ->
        sold ∈ tickets st ->
        (ReservationSerializer.performance t, ReservationSerializer.row t,
         ReservationSerializer.seat t)
        = (Ticket.performance sold, Ticket.row sold, Ticket.seat sold) ->
        exists why,
          ReservationViewSet.create (Some user) now data st
          = (st, Raise (ValidationError why))).
Proof.
  intros Hreach. split.
  - intros i j t u Hi Hj Hne Heq.
    pose proof (seats_unique st (reachable_consistent st Hreach)) as Hnd.
    apply Hne. apply (NoDup_lookup _ i j (Ticket.coords t) Hnd).
    + by rewrite list_lookup_fmap, Hi.
    + rewrite list_lookup_fmap, Hj. cbn. f_equal. symmetry. exact Heq.
  - intros user now data t sold Ht Hsold Heq.
    destruct (ReservationSerializer.is_valid st data) as [vd|e] eqn:Hv.
    + exfalso.
      destruct (proj1 (is_valid_iff st data) (ex_intro _ vd Hv))
        as (_ & _ & Hfresh).
      apply (Hfresh t Ht). unfold ReservationSerializer.sold_seats.
      apply list_elem_of_fmap. exists sold. split; [exact Heq|exact Hsold].
    + destruct (is_valid_error _ _ _ Hv) as [why ->].
      exists why. by apply reservation_create_invalid.
Qed.

Lemma C2_no_double_booking_witness :
  (Ticket.performance (Ticket.Make 1 1 1 1 1),
   Ticket.row (Ticket.Make 1 1 1 1 1), Ticket.seat (Ticket.Make 1 1 1 1 1))
  <> (Ticket.performance (Ticket.Make 2 1 2 1 1),
      Ticket.row (Ticket.Make 2 1 2 1 1), Ticket.seat (Ticket.Make 2 1 2 1 1))
  /\ exists why,
       ReservationViewSet.create (Some 8) evening
         (ReservationSerializer.MkPayload None [seat_at 3 3 1; seat_at 1 1 1])
         scenario_store
       = (scenario_store, Raise (ValidationError why)).
Proof.
  assert (reachable scenario_store) as Hreach.
  { unfold scenario_store, scenario, run. cbn [foldl].
    repeat apply reachable_after. apply reachable_empty. }
  split.
  - apply (proj1 (C2_no_double_booking scenario_store Hreach) 0%nat 1%nat);
      [vm_compute; reflexivity|vm_compute; reflexivity|lia].
  - apply (proj2 (C2_no_double_booking scenario_store Hreach) 8 evening
             (ReservationSerializer.MkPayload None
                [seat_at 3 3 1; seat_at 1 1 1])
             (seat_at 1 1 1) (Ticket.Make 1 1 1 1 1)).
    + vm_compute. repeat constructor.
    + vm_compute. repeat constructor.
    + reflexivity.
Defined.

(** ** Availability is never negative *)





Lemma find_key {A} (key : A -> Z) (k : Z) (l : list A) x :
  List.find (fun y => key y =? k) l = Some x -> x ∈ l /\ key x = k.
Proof.
  intros Hf. apply List.find_some in Hf as [Hin Hk].
  split; [by apply list_elem_of_In|lia].
Qed.










(** * Further properties of the views and models *)

(** ** Reading id lists *)

Lemma string_app_nil_l (s : string) : "" +:+ s = s.
Proof. reflexivity. Qed.

Lemma string_app_cons c (a s : string) :
  String c a +:+ s = String c (a +:+ s).
Proof. reflexivity. Qed.

Lemma string_app_nil_r (s : string) : s +:+ "" = s.
Proof. induction s as [|c s IH]; [reflexivity|]. by rewrite string_app_cons, IH. Qed.

Lemma string_app_assoc (a b c : string) : (a +:+ b) +:+ c = a +:+ b +:+ c.
Proof.
  induction a as [|x a IH]; [reflexivity|]. by rewrite !string_app_cons, IH.
Qed.

Lemma split_length sep s :
  length (Py.split sep s) = S (count_char sep s).
Proof.
  induction s as [|c s IH]; [reflexivity|]. cbn [Py.split count_char].
  destruct (Ascii.eqb c sep); cbn [length]; [by rewrite IH|].
  destruct (Py.split sep s); cbn [length] in *; lia.
Qed.

Lemma split_app sep a b :
  Py.split sep (a +:+ String sep b) = (Py.split sep a ++ Py.split sep b)%list.
Proof.
  induction a as [|c a IH];
    rewrite ?string_app_nil_l, ?string_app_cons; cbn [Py.split].
  - by rewrite Ascii.eqb_refl.
  - destruct (Ascii.eqb c sep); [by rewrite IH|].
    rewrite IH. pose proof (split_length sep a) as Hlen.
    destruct (Py.split sep a); [discriminate|reflexivity].
Qed.

Lemma split_no_sep sep s :
  string_forall (fun c => c <> sep) s -> Py.split sep s = [s].
Proof.
  induction s as [|c s IH]; [reflexivity|]. intros [Hc Hs].
  cbn [Py.split].
  destruct (Ascii.eqb_spec c sep) as [->|_]; [done|]. by rewrite IH.
Qed.

Lemma traverse_length {A B} (f : A -> Result B) xs ys :
  traverse f xs = Ok ys -> length ys = length xs.
Proof.
  revert ys. induction xs as [|x xs IH]; intros ys; cbn; [by intros [= <-]|].
  destruct (f x) as [y|]; [|discriminate]. cbn.
  destruct (traverse f xs) as [ys'|]; [|discriminate]. cbn.
  intros [= <-]. cbn. by rewrite (IH ys').
Qed.

Lemma traverse_app {A B} (f : A -> Result B) xs ys :
  traverse f (xs ++ ys)
  = (a ← traverse f xs; b ← traverse f ys; Ok (a ++ b)%list).
Proof.
  induction xs as [|x xs IH]; cbn.
  - by destruct (traverse f ys).
  - destruct (f x) as [y|]; [|reflexivity]. cbn. rewrite IH.
    destruct (traverse f xs) as [a|]; [|reflexivity]. cbn.
    by destruct (traverse f ys).
Qed.

Lemma int_error s e : Py.int s = Raise e -> e = ValueError.
Proof.
  unfold Py.int. repeat case_match; intros [=]; done.
Qed.

Lemma params_to_ints_error qs e :
  PlayViewSet._params_to_ints qs = Raise e -> e = ValueError.
Proof.
  intros Hp. apply traverse_error in Hp as (tok & _ & Htok).
  by apply int_error in Htok.
Qed.

Lemma params_to_ints_app a b :
  PlayViewSet._params_to_ints (a +:+ "," +:+ b)
  = (ids ← PlayViewSet._params_to_ints a;
     ids' ← PlayViewSet._params_to_ints b;
     Ok (ids ++ ids')%list).
Proof.
  unfold PlayViewSet._params_to_ints.
  change (a +:+ "," +:+ b) with (a +:+ String "," b).
  by rewrite split_app, traverse_app.
Qed.

(** *** Decimal numerals *)

Lemma digit_pretty_char (n : N) :
  (n < 10)%N -> Py.digit (pretty_N_char n) = Some (Z.of_N n).
Proof.
  intros Hn.
  rewrite <- (N2Nat.id n).
  assert (N.to_nat n < 10)%nat as Hm by lia.
  revert Hm. generalize (N.to_nat n). intros m Hm.
  do 10 (destruct m as [|m]; [reflexivity|]). lia.
Qed.

Lemma string_forall_app P (u v : string) :
  string_forall P (u +:+ v) <-> string_forall P u /\ string_forall P v.
Proof.
  induction u as [|c u IH]; rewrite ?string_app_nil_l, ?string_app_cons; cbn.
  - tauto.
  - rewrite IH. tauto.
Qed.

Lemma string_forall_impl (P Q : ascii -> Prop) s :
  (forall c, P c -> Q c) -> string_forall P s -> string_forall Q s.
Proof. intros HPQ. induction s as [|c s IH]; cbn; [done|]. intros [??]. auto. Qed.

Lemma horner_app a (u v : string) :
  horner a (u +:+ v) = horner (horner a u) v.
Proof.
  revert a. induction u as [|c u IH]; intros a;
    rewrite ?string_app_nil_l, ?string_app_cons; cbn; [reflexivity|apply IH].
Qed.

Lemma digits_numeral acc sep (t rest : string) :
  string_forall (fun c => is_Some (Py.digit c)) t -> t <> "" ->
  Py.digits acc sep (t +:+ rest)
  = Py.digits (Some (horner (default 0 acc) t)) false rest.
Proof.
  revert acc sep. induction t as [|c t IH]; intros acc sep Hall Hne; [done|].
  destruct Hall as [[d Hd] Hall]. rewrite string_app_cons.
  cbn [Py.digits horner]. rewrite Hd. cbn [default].
  destruct t as [|c' t]; [reflexivity|].
  rewrite IH by done. reflexivity.
Qed.

Lemma pretty_N_go_app (x : N) (s : string) :
  pretty_N_go x s = pretty_N_go x "" +:+ s.
Proof.
  revert s. induction (N.lt_wf_0 x) as [x _ IH]; intros s.
  assert (x = 0 \/ 0 < x)%N as [->|Hx] by lia; [by rewrite !pretty_N_go_0|].
  assert (x `div` 10 < x)%N as Hlt by (by apply N.div_lt).
  rewrite !(pretty_N_go_step x) by done.
  rewrite (IH _ Hlt (String _ s)), (IH _ Hlt (String _ "")).
  by rewrite string_app_assoc.
Qed.

Lemma pretty_N_go_snoc (x : N) :
  (0 < x)%N ->
  pretty_N_go x ""
  = pretty_N_go (x `div` 10)%N "" +:+ String (pretty_N_char (x `mod` 10)%N) "".
Proof. intros Hx. by rewrite pretty_N_go_step, pretty_N_go_app. Qed.

Lemma pretty_N_go_digits (x : N) :
  string_forall (fun c => is_Some (Py.digit c)) (pretty_N_go x "").
Proof.
  induction (N.lt_wf_0 x) as [x _ IH].
  assert (x = 0 \/ 0 < x)%N as [->|Hx] by lia; [done|].
  rewrite pretty_N_go_snoc by done. apply string_forall_app. split.
  - apply IH. by apply N.div_lt.
  - split; [|done]. rewrite digit_pretty_char; [done|]. by apply N.mod_lt.
Qed.

Lemma pretty_N_go_horner (x : N) :
  horner 0 (pretty_N_go x "") = Z.of_N x.
Proof.
  induction (N.lt_wf_0 x) as [x _ IH].
  assert (x = 0 \/ 0 < x)%N as [->|Hx] by lia; [done|].
  rewrite pretty_N_go_snoc, horner_app by done.
  rewrite IH by (by apply N.div_lt). cbn [horner].
  rewrite digit_pretty_char by (by apply N.mod_lt). cbn [default].
  pose proof (N.div_mod x 10 ltac:(done)) as Hdm. unfold id. lia.
Qed.

Lemma pretty_N_go_nonempty (x : N) : (0 < x)%N -> pretty_N_go x "" <> "".
Proof.
  intros Hx. rewrite pretty_N_go_snoc by done.
  destruct (pretty_N_go (x `div` 10)%N ""); discriminate.
Qed.

Lemma rev_onto_rev_onto (s acc acc' : string) :
  Py.rev_onto (Py.rev_onto s acc) acc' = Py.rev_onto acc (s +:+ acc').
Proof.
  revert acc acc'. induction s as [|c s IH]; intros acc acc'; [reflexivity|].
  cbn [Py.rev_onto]. rewrite IH. reflexivity.
Qed.

Lemma rev_onto_forall P (s acc : string) :
  string_forall P s -> string_forall P acc ->
  string_forall P (Py.rev_onto s acc).
Proof.
  revert acc. induction s as [|c s IH]; intros acc; [done|].
  intros [Hc Hs] Hacc. cbn [Py.rev_onto]. apply IH; [done|]. by split.
Qed.

Lemma lstrip_id (s : string) :
  string_forall (fun c => Py.isspace c = false) s -> Py.lstrip s = s.
Proof. destruct s as [|c s]; [done|]. intros [Hc _]. cbn. by rewrite Hc. Qed.

Lemma strip_id (s : string) :
  string_forall (fun c => Py.isspace c = false) s -> Py.strip s = s.
Proof.
  intros Hs. unfold Py.strip, Py.rstrip. rewrite (lstrip_id s) by done.
  rewrite lstrip_id by (by apply rev_onto_forall).
  rewrite rev_onto_rev_onto. cbn. apply string_app_nil_r.
Qed.

Lemma digit_not_space c : is_Some (Py.digit c) -> Py.isspace c = false.
Proof.
  unfold Py.digit, Py.isspace. intros [d Hd].
  destruct (_ && _)%bool eqn:E in Hd; [|discriminate].
  apply andb_true_iff in E as [E1 E2].
  apply N.leb_le in E1. apply N.leb_le in E2.
  apply orb_false_iff. split; apply andb_false_iff.
  - right. apply N.leb_gt. lia.
  - right. apply N.leb_gt. lia.
Qed.

Lemma count_digits_le (s : string) :
  (Py.count_digits s <= String.length s)%nat.
Proof.
  induction s as [|c s IH]; cbn; [lia|]. destruct (Py.digit c); lia.
Qed.

Lemma int_unsigned (s : string) c t :
  Py.strip s = String c t -> c <> "-"%char -> c <> "+"%char ->
  Py.int s
  = match Py.digits None false (String c t) with
    | Some n =>
        if bool_decide (Py.count_digits (String c t) ≤ Py.max_str_digits)%nat
        then Ok (1 * n) else Raise ValueError
    | None => Raise ValueError
    end.
Proof.
  intros Hs Hm Hp. unfold Py.int. rewrite Hs.
  destruct c as [[] [] [] [] [] [] [] []]; try reflexivity; done.
Qed.

(** A string of decimal digits reads as its value. *)
Lemma int_numeral (t : string) (sign : Z) :
  string_forall (fun c => is_Some (Py.digit c)) t -> t <> "" ->
  (String.length t <= Py.max_str_digits)%nat ->
  Py.int t = Ok (horner 0 t)
  /\ Py.int (String "-" t) = Ok (- horner 0 t).
Proof.
  intros Hall Hne Hlen.
  assert (string_forall (fun c => Py.isspace c = false) t) as Hns
    by (eapply string_forall_impl; [apply digit_not_space|done]).
  assert (Py.digits None false t = Some (horner 0 t)) as Hd.
  { rewrite <- (string_app_nil_r t) at 1. by rewrite digits_numeral. }
  assert (bool_decide (Py.count_digits t ≤ Py.max_str_digits)%nat = true) as Hc.
  { apply bool_decide_eq_true. pose proof (count_digits_le t). lia. }
  split.
  - destruct t as [|c t]; [done|]. destruct Hall as [[d Hdc] _].
    assert (c <> "-"%char /\ c <> "+"%char) as [Hm Hp].
    { split; intros ->; vm_compute in Hdc; discriminate. }
    rewrite (int_unsigned _ c t) by (by try apply strip_id).
    rewrite Hd, Hc. f_equal. lia.
  - unfold Py.int. rewrite strip_id by (split; [reflexivity|done]).
    rewrite Hd, Hc. f_equal; lia.
Qed.

Lemma int_str (z : Z) :
  (String.length (PyStr.str z) <= Py.max_str_digits)%nat ->
  Py.int (PyStr.str z) = Ok z.
Proof.
  unfold PyStr.str, pretty, pretty_Z. destruct z as [|p|p]; intros Hlen.
  - reflexivity.
  - unfold pretty, pretty_positive, pretty, pretty_N in *.
    rewrite decide_False in * by done.
    destruct (int_numeral (pretty_N_go (N.pos p) "") 1) as [-> _];
      [apply pretty_N_go_digits|by apply pretty_N_go_nonempty|done|].
    by rewrite pretty_N_go_horner.
  - unfold pretty, pretty_positive, pretty, pretty_N in *.
    rewrite decide_False in * by done.
    rewrite string_app_cons, string_app_nil_l in *.
    destruct (int_numeral (pretty_N_go (N.pos p) "") 1) as [_ ->];
      [apply pretty_N_go_digits|by apply pretty_N_go_nonempty
      |cbn [String.length] in Hlen; lia|].
    by rewrite pretty_N_go_horner.
Qed.

Lemma str_no_comma (z : Z) :
  string_forall (fun c => c <> ","%char) (PyStr.str z).
Proof.
  assert (forall p, string_forall (fun c => c <> ","%char)
                      (pretty_N_go (N.pos p) "")) as Hpos.
  { intros p. eapply string_forall_impl; [|apply pretty_N_go_digits].
    intros c [d Hd] ->. vm_compute in Hd. discriminate. }
  unfold PyStr.str, pretty, pretty_Z. destruct z as [|p|p].
  - by split.
  - unfold pretty, pretty_positive, pretty, pretty_N.
    rewrite decide_False by done. apply Hpos.
  - unfold pretty, pretty_positive, pretty, pretty_N.
    rewrite decide_False by done. split; [done|apply Hpos].
Qed.

Lemma params_to_ints_str (z : Z) :
  (String.length (PyStr.str z) <= Py.max_str_digits)%nat ->
  PlayViewSet._params_to_ints (PyStr.str z) = Ok [z].
Proof.
  intros Hlen. unfold PlayViewSet._params_to_ints.
  rewrite split_no_sep by apply str_no_comma. cbn.
  by rewrite int_str.
Qed.

(** X1: when [_params_to_ints] returns, it returns one id per
    comma-separated token, so never an empty list. *)
Theorem X1_params_to_ints_length (qs : string) (ids : list Z) :
  PlayViewSet._params_to_ints qs = Ok ids ->
  length ids = S (count_char "," qs) /\ ids <> [].
Proof.
  intros Hp. apply traverse_length in Hp. rewrite split_length in Hp.
  split; [exact Hp|]. intros ->. discriminate.
Qed.

Lemma X1_params_to_ints_length_witness :
  length [2; 3] = S (count_char "," "2,3") /\ [2; 3] <> [].
Proof.
  apply (X1_params_to_ints_length "2,3" [2; 3]). vm_compute. reflexivity.
Defined.

(** X2: [_params_to_ints] distributes over a comma: the ids of
    [a + "," + b] are the ids of [a] followed by the ids of [b], and the
    first part that raises decides the exception. *)
Theorem X2_params_to_ints_concat (a b : string) :
  PlayViewSet._params_to_ints (a +:+ "," +:+ b)
  = (ids ← PlayViewSet._params_to_ints a;
     ids' ← PlayViewSet._params_to_ints b;
     Ok (ids ++ ids')%list).
Proof. apply params_to_ints_app. Qed.

(** X3: [_params_to_ints] either returns or raises ValueError, and an
    empty token always raises: the empty string, a leading comma, a
    trailing comma and a doubled comma all end in ValueError. *)
Theorem X3_params_to_ints_empty_token (a b : string) :
  ((exists ids, PlayViewSet._params_to_ints a = Ok ids)
   \/ PlayViewSet._params_to_ints a = Raise ValueError)
  /\ PlayViewSet._params_to_ints "" = Raise ValueError
  /\ PlayViewSet._params_to_ints ("," +:+ a) = Raise ValueError
  /\ PlayViewSet._params_to_ints (a +:+ ",") = Raise ValueError
  /\ PlayViewSet._params_to_ints (a +:+ ",," +:+ b) = Raise ValueError.
Proof.
  assert (forall s, (exists ids, PlayViewSet._params_to_ints s = Ok ids)
                    \/ PlayViewSet._params_to_ints s = Raise ValueError) as Hor.
  { intros s. destruct (PlayViewSet._params_to_ints s) as [ids|e] eqn:Hp;
      [eauto|]. apply params_to_ints_error in Hp as ->. by right. }
  assert (PlayViewSet._params_to_ints "" = Raise ValueError) as Hempty
    by reflexivity.
  split; [apply Hor|]. split; [exact Hempty|]. split; [|split].
  - change ("," +:+ a) with ("" +:+ "," +:+ a).
    by rewrite params_to_ints_app, Hempty.
  - change (a +:+ ",") with (a +:+ "," +:+ "").
    rewrite params_to_ints_app, Hempty. by destruct (Hor a) as [[ids ->]| ->].
  - change (a +:+ ",," +:+ b) with (a +:+ "," +:+ "," +:+ b).
    rewrite params_to_ints_app.
    change ("," +:+ b) with ("" +:+ "," +:+ b).
    rewrite (params_to_ints_app "" b), Hempty.
    by destruct (Hor a) as [[ids ->]| ->].
Qed.

(** X4: [_params_to_ints] inverts the usual spelling of an id list: for a
    non-empty list of integers whose decimal numerals have at most 4300
    characters, joining the numerals with commas and reading the result
    gives the list back. *)
Theorem X4_params_to_ints_round_trip (ids : list Z) :
  ids <> [] ->
  Forall (fun z => (String.length (PyStr.str z) <= Py.max_str_digits)%nat) ids ->
  PlayViewSet._params_to_ints (PyStr.join "," (PyStr.str <$> ids)) = Ok ids.
Proof.
  induction ids as [|z ids IH]; [done|]. intros _ Hall.
  apply Forall_cons in Hall as [Hz Hall].
  destruct ids as [|z' ids]; [by apply params_to_ints_str|].
  change (PyStr.join "," (PyStr.str <$> z :: z' :: ids))
    with (PyStr.str z +:+ "," +:+ PyStr.join "," (PyStr.str <$> z' :: ids)).
  rewrite params_to_ints_app, params_to_ints_str by done.
  rewrite IH by done. reflexivity.
Qed.

Lemma X4_params_to_ints_round_trip_witness :
  PlayViewSet._params_to_ints (PyStr.join "," (PyStr.str <$> [2; -3; 0; 41]))
  = Ok [2; -3; 0; 41].
Proof.
  apply X4_params_to_ints_round_trip; [discriminate|].
  repeat (apply Forall_cons; split; [apply Nat.leb_le; vm_compute; reflexivity|]).
  apply Forall_nil_2.
Defined.

(** ** Pages of a reservation listing *)

Lemma num_pages_pos {A} (l : list A) : 1 <= ReservationPagination.num_pages l.
Proof.
  unfold ReservationPagination.num_pages, ReservationPagination.page_size.
  apply Z.div_le_lower_bound; lia.
Qed.

Lemma num_pages_covers {A} (l : list A) :
  (length l <= 10 * Z.to_nat (ReservationPagination.num_pages l))%nat.
Proof.
  unfold ReservationPagination.num_pages, ReservationPagination.page_size.
  set (hits := Z.max 1 (Z.of_nat (length l))).
  assert (Z.of_nat (length l) <= 10 * ((hits + 10 - 1) / 10)) as H.
  { pose proof (Z.div_mod (hits + 10 - 1) 10 ltac:(lia)) as Hdm.
    pose proof (Z.mod_pos_bound (hits + 10 - 1) 10 ltac:(lia)). lia. }
  assert (0 <= (hits + 10 - 1) / 10) by (apply Z.div_pos; lia). lia.
Qed.

(** The page that a readable page number selects. *)
Lemma paginate_numbered {A} (l : list A) (s : string) (n : Z) :
  Py.int s = Ok n -> s <> "last" ->
  ReservationPagination.paginate_queryset l {["page" := s]}
  = if (n <? 1) || (ReservationPagination.num_pages l <? n)
    then Raise NotFound
    else Ok (take 10 (drop (Z.to_nat ((n - 1) * 10)) l)).
Proof.
  intros Hint Hlast. unfold ReservationPagination.paginate_queryset.
  rewrite lookup_singleton_eq.
  assert (s <> "") as Hne by (intros ->; vm_compute in Hint; discriminate).
  destruct s as [|c s]; [done|]. cbn [Py.truthy].
  rewrite bool_decide_eq_false_2 by done. rewrite Hint. cbn [mbind Result_bind].
  reflexivity.
Qed.

Lemma traverse_ok_map {A B} (f : A -> Result B) (g : A -> B) xs :
  (forall x, x ∈ xs -> f x = Ok (g x)) -> traverse f xs = Ok (g <$> xs).
Proof.
  induction xs as [|x xs IH]; intros Hf; [reflexivity|]. cbn.
  rewrite Hf by apply list_elem_of_here. cbn.
  rewrite IH by (intros; apply Hf; by apply list_elem_of_further).
  reflexivity.
Qed.

Lemma concat_chunks {A} (l : list A) (k : nat) :
  concat ((fun n => take 10 (drop (Z.to_nat ((n - 1) * 10)) l))
            <$> seqZ 1 (Z.of_nat k))
  = take (10 * k) l.
Proof.
  induction k as [|k IH]; [by rewrite Nat.mul_0_r, take_0|].
  rewrite seqZ_S, fmap_app, concat_app, IH. cbn [fmap list_fmap concat].
  rewrite app_nil_r.
  replace (Z.to_nat ((1 + Z.of_nat k - 1) * 10)) with (10 * k)%nat by lia.
  rewrite take_take_drop. f_equal. lia.
Qed.

(** X5: the pages of a user's reservation listing partition the user's
    reservations: requesting the pages 1 to [num_pages] in turn (under any
    spelling of the page numbers that [int] reads) succeeds every time,
    the pages concatenate to exactly the user's reservations in table
    order, and no page holds more than 10. *)
Theorem X5_pages_partition (st : Store) (user : Z) (spell : Z -> string) :
  (forall n,
     1 <= n <= ReservationPagination.num_pages
                 (ReservationViewSet.get_queryset st user) ->
     Py.int (spell n) = Ok n /\ spell n <> "last") ->
  exists pages,
    traverse
      (fun n => ReservationViewSet.list_ st (Some user) {["page" := spell n]})
      (seqZ 1 (ReservationPagination.num_pages
                 (ReservationViewSet.get_queryset st user)))
    = Ok pages
    /\ concat pages = ReservationViewSet.get_queryset st user
    /\ Forall (fun page => (length page <= 10)%nat) pages.
Proof.
  intros Hspell. set (qs := ReservationViewSet.get_queryset st user) in *.
  set (chunk := fun n => take 10 (drop (Z.to_nat ((n - 1) * 10)) qs)).
  exists (chunk <$> seqZ 1 (ReservationPagination.num_pages qs)).
  split; [|split].
  - apply traverse_ok_map. intros n Hn. apply elem_of_seqZ in Hn.
    destruct (Hspell n ltac:(lia)) as [Hint Hlast].
    cbn [ReservationViewSet.list_ ReservationViewSet.check_permissions
         mbind Result_bind].
    fold qs. rewrite (paginate_numbered qs _ n Hint Hlast).
    destruct (n <? 1) eqn:E1; [lia|].
    destruct (ReservationPagination.num_pages qs <? n) eqn:E2; [lia|].
    reflexivity.
  - pose proof (num_pages_pos qs) as Hpos.
    rewrite <- (Z2Nat.id (ReservationPagination.num_pages qs)) by lia.
    unfold chunk. rewrite concat_chunks. apply take_ge, num_pages_covers.
  - apply Forall_fmap, Forall_forall. intros n _. unfold chunk. cbn.
    rewrite length_take. lia.
Qed.

Lemma X5_pages_partition_witness :
  exists pages,
    traverse
      (fun n => ReservationViewSet.list_ scenario_store (Some 7)
                  {["page" := PyStr.str n]})
      (seqZ 1 (ReservationPagination.num_pages
                 (ReservationViewSet.get_queryset scenario_store 7)))
    = Ok pages
    /\ concat pages = ReservationViewSet.get_queryset scenario_store 7
    /\ Forall (fun page => (length page <= 10)%nat) pages.
Proof.
  apply (X5_pages_partition scenario_store 7 PyStr.str).
  assert (ReservationPagination.num_pages
            (ReservationViewSet.get_queryset scenario_store 7) = 1) as ->
    by (vm_compute; reflexivity).
  intros n Hn. assert (n = 1) as -> by lia.
  split; [vm_compute; reflexivity|discriminate].
Defined.

(** X6: the page size of a reservation listing is fixed: whatever the
    query parameters, a returned page holds at most 10 reservations, the
    listing depends on no parameter but [page], and the only exceptions it
    raises are NotFound, for an authenticated caller, and PermissionDenied,
    for an anonymous one. *)
Theorem X6_page_size_fixed
    (st : Store) (request_user : option Z)
    (query_params : gmap string string) :
  (forall page,
     ReservationViewSet.list_ st request_user query_params = Ok page ->
     (length page <= 10)%nat /\ is_Some request_user)
  /\ (forall e,
        ReservationViewSet.list_ st request_user query_params = Raise e ->
        (e = NotFound /\ is_Some request_user)
        \/ (e = PermissionDenied /\ request_user = None))
  /\ (forall query_params' : gmap string string,
        query_params' !! "page" = query_params !! "page" ->
        ReservationViewSet.list_ st request_user query_params'
        = ReservationViewSet.list_ st request_user query_params).
Proof.
  split; [|split].
  - destruct request_user as [user|]; [|discriminate]. intros page.
    cbn [ReservationViewSet.list_ ReservationViewSet.check_permissions
         mbind Result_bind].
    unfold ReservationPagination.paginate_queryset.
    destruct (match Py.truthy (query_params !! "page") with
              | Some s => _ | None => _ end) as [n|e]; [|discriminate].
    cbn [mbind Result_bind]. destruct (_ || _); [discriminate|].
    intros [= <-]. split; [|done]. rewrite length_take.
    unfold ReservationPagination.page_size. lia.
  - destruct request_user as [user|];
      [|intros e [= <-]; right; by split]. intros e.
    cbn [ReservationViewSet.list_ ReservationViewSet.check_permissions
         mbind Result_bind].
    unfold ReservationPagination.paginate_queryset.
    destruct (Py.truthy (query_params !! "page")) as [s|];
      [case_bool_decide; [|destruct (Py.int s)]|];
      cbn [mbind Result_bind];
      try (destruct (_ || _)); intros [= <-]; left; by split.
  - intros query_params' Hpage. destruct request_user as [user|]; [|done].
    cbn [ReservationViewSet.list_ ReservationViewSet.check_permissions
         mbind Result_bind].
    unfold ReservationPagination.paginate_queryset. by rewrite Hpage.
Qed.

Lemma X6_page_size_fixed_witness :
  ReservationViewSet.list_ scenario_store (Some 7)
    {["page_size" := "50"; "page" := "1"]}
  = ReservationViewSet.list_ scenario_store (Some 7) {["page" := "1"]}.
Proof.
  apply (proj2 (proj2 (X6_page_size_fixed scenario_store (Some 7)
                         {["page" := "1"]}))).
  vm_compute. reflexivity.
Defined.

(** X7: [page=last] always returns, namely the final slice of the user's
    reservations, even when there are none; a page number outside
    1..[num_pages], or a page parameter that [int] cannot read, gives
    NotFound. *)
Theorem X7_last_and_invalid_pages (st : Store) (user : Z) :
  ReservationViewSet.list_ st (Some user) {["page" := "last"]}
  = Ok (drop (10 * (Z.to_nat (ReservationPagination.num_pages
                                (ReservationViewSet.get_queryset st user)) - 1))
          (ReservationViewSet.get_queryset st user))
  /\ (forall s n,
        Py.int s = Ok n -> s <> "last" ->
        n < 1 \/ ReservationPagination.num_pages
                   (ReservationViewSet.get_queryset st user) < n ->
        ReservationViewSet.list_ st (Some user) {["page" := s]}
        = Raise NotFound)
  /\ (forall s e,
        Py.int s = Raise e -> s <> "last" -> s <> "" ->
        ReservationViewSet.list_ st (Some user) {["page" := s]}
        = Raise NotFound).
Proof.
  set (qs := ReservationViewSet.get_queryset st user).
  pose proof (num_pages_pos qs) as Hpos.
  pose proof (num_pages_covers qs) as Hcov.
  split; [|split].
  - cbn [ReservationViewSet.list_ ReservationViewSet.check_permissions
         mbind Result_bind]. fold qs.
    unfold ReservationPagination.paginate_queryset.
    rewrite lookup_singleton_eq. cbn [Py.truthy].
    rewrite bool_decide_eq_true_2 by done. cbn [mbind Result_bind].
    destruct (_ <? 1) eqn:E1; [lia|]. rewrite Z.ltb_irrefl. cbn [orb].
    f_equal.
    replace (Z.to_nat ((ReservationPagination.num_pages qs - 1)
                       * ReservationPagination.page_size))
      with (10 * (Z.to_nat (ReservationPagination.num_pages qs) - 1))%nat
      by (unfold ReservationPagination.page_size; lia).
    apply take_ge. rewrite length_drop.
    unfold ReservationPagination.page_size. lia.
  - intros s n Hint Hlast Hout.
    cbn [ReservationViewSet.list_ ReservationViewSet.check_permissions
         mbind Result_bind]. fold qs.
    rewrite (paginate_numbered qs s n Hint Hlast).
    destruct (n <? 1) eqn:E1; [reflexivity|].
    destruct (ReservationPagination.num_pages qs <? n) eqn:E2; [reflexivity|].
    lia.
  - intros s e Hint Hlast Hne.
    cbn [ReservationViewSet.list_ ReservationViewSet.check_permissions
         mbind Result_bind].
    unfold ReservationPagination.paginate_queryset.
    rewrite lookup_singleton_eq. destruct s as [|c s]; [done|].
    cbn [Py.truthy]. rewrite bool_decide_eq_false_2 by done.
    by rewrite Hint.
Qed.

Lemma X7_last_and_invalid_pages_witness :
  ReservationViewSet.list_ scenario_store (Some 7) {["page" := "2"]}
  = Raise NotFound
  /\ ReservationViewSet.list_ scenario_store (Some 7) {["page" := "two"]}
     = Raise NotFound.
Proof.
  split.
  - apply (proj1 (proj2 (X7_last_and_invalid_pages scenario_store 7)) "2" 2);
      [vm_compute; reflexivity|discriminate|right; vm_compute; reflexivity].
  - apply (proj2 (proj2 (X7_last_and_invalid_pages scenario_store 7))
             "two" ValueError);
      [vm_compute; reflexivity|discriminate|discriminate].
Defined.

(** ** More on the listing of plays *)

Lemma filter_related_in_ext links ids ids' queryset :
  (forall x, x ∈ ids <-> x ∈ ids') ->
  PlayViewSet.filter_related_in links ids queryset
  = PlayViewSet.filter_related_in links ids' queryset.
Proof.
  intros Hids. unfold PlayViewSet.filter_related_in, Lookup.in_.
  apply list_bind_ext; [|reflexivity]. intros p.
  apply list_bind_ext; [|reflexivity]. intros link.
  by rewrite (bool_decide_ext _ _ (Hids link.2)).
Qed.

Lemma play_get_queryset_ext st (qp qp' : gmap string string) :
  Py.truthy (qp !! "title") = Py.truthy (qp' !! "title") ->
  Py.truthy (qp !! "genres") = Py.truthy (qp' !! "genres") ->
  Py.truthy (qp !! "actors") = Py.truthy (qp' !! "actors") ->
  PlayViewSet.get_queryset st qp = PlayViewSet.get_queryset st qp'.
Proof.
  intros Ht Hg Ha. unfold PlayViewSet.get_queryset. by rewrite Ht, Hg, Ha.
Qed.

Lemma performance_get_queryset_ext st (qp qp' : gmap string string) :
  Py.truthy (qp !! "date") = Py.truthy (qp' !! "date") ->
  Py.truthy (qp !! "play") = Py.truthy (qp' !! "play") ->
  PerformanceViewSet.get_queryset st qp = PerformanceViewSet.get_queryset st qp'.
Proof.
  intros Hd Hp. unfold PerformanceViewSet.get_queryset. by rewrite Hd, Hp.
Qed.

Lemma truthy_insert_empty_delete (qp : gmap string string) (k key : string) :
  Py.truthy (<[k := ""]> qp !! key) = Py.truthy (delete k qp !! key).
Proof.
  destruct (decide (k = key)) as [->|Hne].
  - by rewrite lookup_insert_eq, lookup_delete_eq.
  - by rewrite lookup_insert_ne, lookup_delete_ne.
Qed.

Lemma params_to_ints_nonempty s ids :
  PlayViewSet._params_to_ints s = Ok ids -> Py.truthy (Some s) = Some s.
Proof. destruct s; [discriminate|reflexivity]. Qed.

(** What a listing of plays contains, in terms of its parameters. *)
Lemma play_get_queryset_elem st (qp : gmap string string) result p :
  PlayViewSet.get_queryset st qp = Ok result ->
  p ∈ result <->
  p ∈ plays st
  /\ (forall t, Py.truthy (qp !! "title") = Some t ->
        Lookup.icontains (Play.title p) t = true)
  /\ (forall s, Py.truthy (qp !! "genres") = Some s ->
        exists ids, PlayViewSet._params_to_ints s = Ok ids
          /\ exists g, g ∈ ids /\ (Play.id p, g) ∈ play_genres st)
  /\ (forall s, Py.truthy (qp !! "actors") = Some s ->
        exists ids, PlayViewSet._params_to_ints s = Ok ids
          /\ exists a, a ∈ ids /\ (Play.id p, a) ∈ play_actors st).
Proof.
  unfold PlayViewSet.get_queryset.
  destruct (Py.truthy (qp !! "title")) as [t|];
    (destruct (Py.truthy (qp !! "genres")) as [gs|];
     [destruct (PlayViewSet._params_to_ints gs) as [gids|] eqn:Hg;
      [|discriminate]|]);
    (destruct (Py.truthy (qp !! "actors")) as [acs|];
     [destruct (PlayViewSet._params_to_ints acs) as [aids|] eqn:Ha;
      [|discriminate]|]);
    cbn [mbind Result_bind]; intros [= <-];
    match goal with
    | |- context [PlayViewSet.order_by_title (PlayViewSet.distinct ?q)] =>
        destruct (order_distinct_spec q) as (Hin & _ & _)
    end;
    rewrite Hin;
    rewrite ?filter_related_in_elem, ?list_elem_of_filter, ?Is_true_true;
    (split;
     [intros H; repeat split; intros; simplify_eq; try tauto;
      eexists; (split; [eassumption|]); tauto
     |intros (Hp & Ht & Hgs & Has);
      repeat match goal with
      | H : forall s, Some ?x = Some s -> _ |- _ =>
          specialize (H x eq_refl)
      end;
      repeat match goal with
      | H : exists ids, _ = Ok ids /\ _ |- _ =>
          destruct H as (? & ? & ?)
      end;
      repeat match goal with
      | H1 : ?e = Ok ?x, H2 : ?e = Ok ?y |- _ =>
          assert (x = y) by congruence; subst x; clear H1
      end;
      repeat split; eauto]).
Qed.

(** X8: a listing of plays depends on the [genres] and [actors]
    parameters only through the set of ids they denote: two parameter
    values that read as lists with the same elements (in any order, with
    any repetition) give the same listing. *)
Theorem X8_listPlays_id_set
    (st : Store) (query_params : gmap string string)
    (name s s' : string) (ids ids' : list Z) :
  name = "genres" \/ name = "actors" ->
  PlayViewSet._params_to_ints s = Ok ids ->
  PlayViewSet._params_to_ints s' = Ok ids' ->
  (forall x, x ∈ ids <-> x ∈ ids') ->
  PlayViewSet.list_ st (<[name := s]> query_params)
  = PlayViewSet.list_ st (<[name := s']> query_params).
Proof.
  intros Hname Hs Hs' Hids.
  pose proof (params_to_ints_nonempty _ _ Hs) as Ht.
  pose proof (params_to_ints_nonempty _ _ Hs') as Ht'.
  unfold PlayViewSet.list_, PlayViewSet.get_queryset.
  destruct Hname as [-> | ->].
  - rewrite !lookup_insert_eq, !(lookup_insert_ne _ "genres") by done.
    rewrite Ht, Ht', Hs, Hs'.
    destruct (Py.truthy (query_params !! "title"));
      cbn [mbind Result_bind];
      by rewrite (filter_related_in_ext _ ids ids').
  - rewrite !lookup_insert_eq, !(lookup_insert_ne _ "actors") by done.
    rewrite Ht, Ht', Hs, Hs'.
    destruct (Py.truthy (query_params !! "title")),
      (Py.truthy (query_params !! "genres")) as [gs|];
      try destruct (PlayViewSet._params_to_ints gs);
      cbn [mbind Result_bind]; try reflexivity;
      by rewrite (filter_related_in_ext _ ids ids').
Qed.

Lemma X8_listPlays_id_set_witness :
  PlayViewSet.list_ scenario_store (<["genres" := "1,2"]> {["title" := "a"]})
  = PlayViewSet.list_ scenario_store
      (<["genres" := " 2, 1,2"]> {["title" := "a"]}).
Proof.
  apply (X8_listPlays_id_set scenario_store {["title" := "a"]} "genres"
           "1,2" " 2, 1,2" [1; 2] [2; 1; 2]);
    [by left|vm_compute; reflexivity|vm_compute; reflexivity|].
  intros x. rewrite !elem_of_cons, !elem_of_nil. tauto.
Defined.

(** X9: an empty parameter is an absent parameter.  In the listings of
    plays and of performances, a query parameter sent with an empty value
    changes nothing; in particular [genres=] does not raise, although
    [_params_to_ints] raises ValueError on the empty string. *)
Theorem X9_empty_parameter_is_absent
    (st : Store) (query_params : gmap string string) (name : string) :
  PlayViewSet.list_ st (<[name := ""]> query_params)
  = PlayViewSet.list_ st (delete name query_params)
  /\ PerformanceViewSet.list_ st (<[name := ""]> query_params)
     = PerformanceViewSet.list_ st (delete name query_params)
  /\ PlayViewSet._params_to_ints "" = Raise ValueError.
Proof.
  split; [|split; [|reflexivity]].
  - apply play_get_queryset_ext; apply truthy_insert_empty_delete.
  - apply performance_get_queryset_ext; apply truthy_insert_empty_delete.
Qed.

(** X10: a filter only narrows the listing of plays: when the listing
    with a parameter and the listing without it both return, every play of
    the former is in the latter. *)
Theorem X10_listPlays_filter_narrows
    (st : Store) (query_params : gmap string string) (name value : string)
    (narrowed full : list Play.t) :
  PlayViewSet.list_ st (<[name := value]> query_params) = Ok narrowed ->
  PlayViewSet.list_ st (delete name query_params) = Ok full ->
  narrowed ⊆ full.
Proof.
  intros Hn Hf p Hp.
  apply (play_get_queryset_elem _ _ _ p Hn) in Hp
    as (Hin & Htitle & Hgenres & Hactors).
  apply (play_get_queryset_elem _ _ _ p Hf).
  split; [exact Hin|].
  split; [|split]; intros x Hx.
  - apply Htitle. destruct (decide (name = "title")) as [->|Hne];
      [by rewrite lookup_delete_eq in Hx|].
    by rewrite lookup_insert_ne, <- (lookup_delete_ne query_params name).
  - apply Hgenres. destruct (decide (name = "genres")) as [->|Hne];
      [by rewrite lookup_delete_eq in Hx|].
    by rewrite lookup_insert_ne, <- (lookup_delete_ne query_params name).
  - apply Hactors. destruct (decide (name = "actors")) as [->|Hne];
      [by rewrite lookup_delete_eq in Hx|].
    by rewrite lookup_insert_ne, <- (lookup_delete_ne query_params name).
Qed.

Lemma X10_listPlays_filter_narrows_witness :
  [Play.Make 1 "Hamlet" "A prince." None]
  ⊆ [Play.Make 2 "Aida" "An opera." None;
     Play.Make 1 "Hamlet" "A prince." None].
Proof.
  apply (X10_listPlays_filter_narrows scenario_store ∅ "genres" "1");
    vm_compute; reflexivity.
Defined.

(** ** More on the annotated queryset of performances *)

Lemma filter_none {A} (P : A -> Prop) `{forall x, Decision (P x)} (l : list A) :
  (forall x, x ∈ l -> ~ P x) -> filter P l = [].
Proof.
  induction l as [|y l IH]; intros Hl; [reflexivity|]. rewrite filter_cons.
  rewrite decide_False by (apply Hl, list_elem_of_here).
  apply IH. intros x Hx. by apply Hl, list_elem_of_further.
Qed.

Lemma filter_unique {A} (key : A -> Z) (l : list A) (k : Z) x :
  NoDup (key <$> l) -> x ∈ l -> key x = k ->
  filter (fun y => key y = k) l = [x].
Proof.
  induction l as [|y l IH]; intros Hnd Hx Hk; [by apply elem_of_nil in Hx|].
  cbn in Hnd. apply NoDup_cons in Hnd as [Hy Hnd]. rewrite filter_cons.
  apply elem_of_cons in Hx as [->|Hx].
  - rewrite decide_True by done. f_equal.
    apply filter_none. intros z Hz Hzk. apply Hy.
    rewrite <- Hk in Hzk. rewrite <- Hzk. by apply list_elem_of_fmap_2.
  - rewrite decide_False; [by apply IH|].
    intros Hyk. apply Hy. rewrite Hyk, <- Hk. by apply list_elem_of_fmap_2.
Qed.

Lemma queryset_rows_of (st : Store) (ps : list Performance.t) :
  NoDup (Play.id <$> plays st) -> NoDup (TheatreHall.id <$> halls st) ->
  Forall (fun p =>
      Performance.play p ∈ Play.id <$> plays st
      /\ Performance.theatre_hall p ∈ TheatreHall.id <$> halls st) ps ->
  PerformanceViewSet.performance
    <$> (ps ≫= fun p =>
           filter (fun pl => Play.id pl = Performance.play p) (plays st)
           ≫= fun pl =>
                filter (fun h => TheatreHall.id h = Performance.theatre_hall p)
                  (halls st)
                ≫= fun h =>
                     [PerformanceViewSet.MkRow p pl h
                        (TheatreHall.rows h * TheatreHall.seats_in_row h
                         - PerformanceViewSet.Count
                             (PerformanceViewSet.joined_tickets st p))])
  = ps.
Proof.
  intros Hpl Hh. induction 1 as [|p ps [Hp1 Hp2] _ IH]; [reflexivity|].
  apply list_elem_of_fmap in Hp1 as (pl & Hpl1 & Hpl2).
  apply list_elem_of_fmap in Hp2 as (h & Hh1 & Hh2).
  rewrite bind_cons, fmap_app, IH.
  rewrite (filter_unique Play.id (plays st) _ pl) by done.
  rewrite bind_singleton.
  rewrite (filter_unique TheatreHall.id (halls st) _ h) by done.
  reflexivity.
Qed.

(** X11: the annotated queryset has exactly one row per performance, in
    table order: when the primary keys of plays and of halls are distinct
    and every performance references an existing play and hall, the joins
    neither drop nor repeat a performance. *)
Theorem X11_queryset_one_row_per_performance (st : Store) :
  NoDup (Play.id <$> plays st) ->
  NoDup (TheatreHall.id <$> halls st) ->
  referential_integrity st ->
  PerformanceViewSet.performance <$> PerformanceViewSet.queryset st
  = performances st
  /\ length (PerformanceViewSet.queryset st) = length (performances st).
Proof.
  intros Hpl Hh Hint.
  assert (PerformanceViewSet.performance <$> PerformanceViewSet.queryset st
          = performances st) as Heq
    by exact (queryset_rows_of st (performances st) Hpl Hh Hint).
  split; [exact Heq|].
  by rewrite <- (length_fmap PerformanceViewSet.performance), Heq.
Qed.

Lemma X11_queryset_one_row_witness :
  PerformanceViewSet.performance <$> PerformanceViewSet.queryset scenario_store
  = performances scenario_store
  /\ length (PerformanceViewSet.queryset scenario_store)
     = length (performances scenario_store).
Proof.
  apply X11_queryset_one_row_per_performance.
  - apply (bool_decide_unpack _). vm_compute. exact I.
  - apply (bool_decide_unpack _). vm_compute. exact I.
  - vm_compute. repeat constructor.
Defined.

Lemma Count_joined_app st p news :
  PerformanceViewSet.Count
    (PerformanceViewSet.joined_tickets (set_tickets (tickets st ++ news) st) p)
  = PerformanceViewSet.Count (PerformanceViewSet.joined_tickets st p)
    + Z.of_nat (length (filter
        (fun t => Ticket.performance t = Performance.id p) news)).
Proof.
  rewrite !Count_joined_tickets. unfold tickets_of. cbn [tickets set_tickets].
  rewrite filter_app, length_app. lia.
Qed.

Lemma fmap_bind_comm {A B C} (g : B -> C) (f : A -> list B) (l : list A) :
  g <$> (l ≫= f) = l ≫= fun x => g <$> f x.
Proof.
  induction l as [|x l IH]; [reflexivity|].
  by rewrite !bind_cons, fmap_app, IH.
Qed.

(** X12: [tickets_available] follows the ticket table: appending ticket
    rows to the table lowers the availability of each performance by the
    number of appended tickets that reference it, and changes nothing else
    in the annotated queryset. *)
Theorem X12_availability_follows_tickets (st : Store) (news : list Ticket.t) :
  PerformanceViewSet.queryset (set_tickets (tickets st ++ news) st)
  = (fun r =>
       lower_availability
         (Z.of_nat (length (filter
            (fun t => Ticket.performance t
                      = Performance.id (PerformanceViewSet.performance r))
            news))) r)
    <$> PerformanceViewSet.queryset st.
Proof.
  unfold PerformanceViewSet.queryset. cbn [performances plays halls set_tickets].
  rewrite fmap_bind_comm. apply list_bind_ext; [|reflexivity]. intros p.
  rewrite fmap_bind_comm. apply list_bind_ext; [|reflexivity]. intros pl.
  rewrite fmap_bind_comm. apply list_bind_ext; [|reflexivity]. intros h.
  cbn. unfold lower_availability. cbn. rewrite Count_joined_app.
  do 2 f_equal. lia.
Qed.

Lemma find_not_in {A} (key : A -> Z) (k : Z) (l : list A) :
  k ∉ key <$> l -> List.find (fun x => key x =? k) l = None.
Proof.
  induction l as [|y l IH]; intros Hk; [reflexivity|]. cbn.
  destruct (Z.eqb_spec (key y) k) as [Heq|_].
  - exfalso. apply Hk. rewrite <- Heq. apply list_elem_of_here.
  - apply IH. intros Hin. apply Hk. by apply list_elem_of_further.
Qed.

Lemma find_in {A} (key : A -> Z) (k : Z) (l : list A) :
  k ∈ key <$> l -> exists x, List.find (fun x => key x =? k) l = Some x.
Proof.
  induction l as [|y l IH]; intros Hk; [by apply elem_of_nil in Hk|]. cbn.
  destruct (Z.eqb_spec (key y) k) as [Heq|Hne]; [eauto|].
  apply IH. cbn in Hk. apply elem_of_cons in Hk as [Hk|Hk]; [congruence|done].
Qed.

(** X13: retrieving a performance goes through the filtered listing.  With
    the same query parameters, retrieve raises what the listing raises;
    when the listing returns, retrieve returns a listed row with the given
    id if there is one and raises NotFound otherwise, so an existing
    performance that the filters exclude is not found. *)
Theorem X13_retrieve_through_list
    (st : Store) (query_params : gmap string string) (pk : Z) :
  (forall e,
     PerformanceViewSet.list_ st query_params = Raise e ->
     PerformanceViewSet.retrieve st query_params pk = Raise e)
  /\ (forall rows,
        PerformanceViewSet.list_ st query_params = Ok rows ->
        (pk ∉ (fun r => Performance.id (PerformanceViewSet.performance r))
                <$> rows ->
         PerformanceViewSet.retrieve st query_params pk = Raise NotFound)
        /\ (pk ∈ (fun r => Performance.id (PerformanceViewSet.performance r))
                   <$> rows ->
            exists r,
              PerformanceViewSet.retrieve st query_params pk = Ok r
              /\ r ∈ rows
              /\ Performance.id (PerformanceViewSet.performance r) = pk)).
Proof.
  unfold PerformanceViewSet.retrieve, PerformanceViewSet.get_object,
    PerformanceViewSet.list_.
  split.
  - intros e ->. reflexivity.
  - intros rows ->. cbn [mbind Result_bind]. split.
    + intros Hpk.
      by rewrite (find_not_in
                    (fun r => Performance.id (PerformanceViewSet.performance r))).
    + intros Hpk.
      destruct (find_in
                  (fun r => Performance.id (PerformanceViewSet.performance r))
                  pk rows Hpk) as [r Hr].
      exists r. rewrite Hr. split; [reflexivity|].
      by apply (find_key
                  (fun r => Performance.id (PerformanceViewSet.performance r))).
Qed.

Lemma X13_retrieve_through_list_witness :
  PerformanceViewSet.retrieve scenario_store {["play" := "2"]} 1
  = Raise NotFound
  /\ PerformanceViewSet.retrieve scenario_store {["play" := "x"]} 1
     = Raise ValueError.
Proof.
  assert (PerformanceViewSet.list_ scenario_store {["play" := "2"]} = Ok [])
    as Hnone by (vm_compute; reflexivity).
  assert (PerformanceViewSet.list_ scenario_store {["play" := "x"]}
          = Raise ValueError) as Hbad by (vm_compute; reflexivity).
  split.
  - refine (proj1 (proj2 (X13_retrieve_through_list scenario_store
                            {["play" := "2"]} 1) [] Hnone) _).
    apply not_elem_of_nil.
  - exact (proj1 (X13_retrieve_through_list scenario_store
                    {["play" := "x"]} 1) ValueError Hbad).
Defined.

(** X14: updating or deleting a performance first looks it up through the
    filtered queryset: whenever retrieve raises for given query parameters
    and id (NotFound because the filters exclude it or no such row exists,
    ValueError because a filter is malformed), update, partial update and
    delete raise the same exception and leave the store untouched. *)
Theorem X14_failed_lookup_writes_nothing
    (st : Store) (query_params : gmap string string) (pk : Z) (e : Exn) :
  PerformanceViewSet.retrieve st query_params pk = Raise e ->
  PerformanceViewSet.destroy query_params pk st = (st, Raise e)
  /\ forall partial data,
       PerformanceViewSet.update partial query_params pk data st
       = (st, Raise e).
Proof.
  unfold PerformanceViewSet.retrieve. intros Hget.
  unfold PerformanceViewSet.destroy, PerformanceViewSet.update.
  handler_unfold. rewrite Hget. split; [reflexivity|]. intros; reflexivity.
Qed.

Lemma X14_failed_lookup_witness :
  PerformanceViewSet.destroy {["date" := "2024-05-02"]} 1 scenario_store
  = (scenario_store, Raise NotFound)
  /\ forall partial data,
       PerformanceViewSet.update partial {["date" := "2024-05-02"]} 1 data
         scenario_store
       = (scenario_store, Raise NotFound).
Proof.
  assert (PerformanceViewSet.retrieve scenario_store
            {["date" := "2024-05-02"]} 1 = Raise NotFound) as Hget
    by (vm_compute; reflexivity).
  exact (X14_failed_lookup_writes_nothing scenario_store
           {["date" := "2024-05-02"]} 1 NotFound Hget).
Defined.

(** *** The [date] parameter *)

Lemma digit_digit_char (k : Z) :
  0 <= k <= 9 -> Py.digit (digit_char k) = Some k.
Proof.
  intros Hk. rewrite <- (Z2Nat.id k) by lia.
  assert (Z.to_nat k < 10)%nat as Hm by lia.
  revert Hm. generalize (Z.to_nat k). intros m Hm.
  do 10 (destruct m as [|m]; [reflexivity|]). lia.
Qed.






Lemma dig_digit_char lo hi k r :
  0 <= k <= 9 ->
  Datetime.dig lo hi (String (digit_char k) r)
  = if (lo <=? k) && (k <=? hi) then [(k, r)] else [].
Proof. intros Hk. cbn. by rewrite digit_digit_char. Qed.

Lemma zfill2_app n r :
  zfill2 n +:+ r
  = String (digit_char (n / 10)) (String (digit_char (n mod 10)) r).
Proof. reflexivity. Qed.

Lemma zfill4_app n r :
  zfill4 n +:+ r = zfill2 (n / 100) +:+ zfill2 (n mod 100) +:+ r.
Proof. reflexivity. Qed.

Lemma dig_in_range lo hi k r :
  0 <= k <= 9 -> lo <= k <= hi ->
  Datetime.dig lo hi (String (digit_char k) r) = [(k, r)].
Proof.
  intros Hk Hr. rewrite dig_digit_char by done.
  replace ((lo <=? k) && (k <=? hi)) with true; [done|].
  symmetry. apply andb_true_iff. rewrite !Z.leb_le. lia.
Qed.

Lemma two_digits a b r :
  0 <= a <= 9 -> 0 <= b <= 9 ->
  Datetime.two (Datetime.dig 0 9) (Datetime.dig 0 9)
    (String (digit_char a) (String (digit_char b) r))
  = [(10 * a + b, r)].
Proof.
  intros Ha Hb. unfold Datetime.two.
  rewrite dig_in_range, bind_singleton by done.
  by rewrite dig_in_range, bind_singleton by done.
Qed.

Lemma re_Y_zfill4 y r :
  0 <= y <= 9999 -> Datetime.re_Y (zfill4 y +:+ r) = [(y, r)].
Proof.
  intros Hy. rewrite zfill4_app, !zfill2_app. unfold Datetime.re_Y.
  rewrite two_digits, bind_singleton by (Z.div_mod_to_equations; lia).
  rewrite two_digits, bind_singleton by (Z.div_mod_to_equations; lia).
  do 2 f_equal. Z.div_mod_to_equations; lia.
Qed.

Ltac cases_below i n :=
  lazymatch n with
  | O => idtac
  | S ?n' => destruct i as [|i]; [|cases_below i n']
  end.

Lemma strptime_spelling y m d ms ds :
  0 <= y <= 9999 -> 1 <= m <= 12 -> 1 <= d <= 31 ->
  ms ∈ month_spellings m -> ds ∈ day_spellings d ->
  Datetime.strptime_date (zfill4 y +:+ "-" +:+ ms +:+ "-" +:+ ds)
  = Datetime.make_date y m d.
Proof.
  intros Hy Hm Hd Hms Hds. unfold Datetime.strptime_date.
  rewrite re_Y_zfill4, bind_singleton by done.
  apply list_elem_of_In in Hms, Hds.
  revert Hms Hds.
  rewrite <- (Z2Nat.id m), <- (Z2Nat.id d) by lia.
  assert (Z.to_nat m < 13)%nat as Hm' by lia.
  assert (Z.to_nat d < 32)%nat as Hd' by lia.
  assert (0 < Z.to_nat m)%nat as Hm0 by lia.
  assert (0 < Z.to_nat d)%nat as Hd0 by lia.
  revert Hm' Hd' Hm0 Hd0. generalize (Z.to_nat m) (Z.to_nat d).
  clear. intros i j Hi Hj Hi0 Hj0.
  cases_below i 13%nat; try (exfalso; lia);
    (cases_below j 32%nat; try (exfalso; lia));
    intros Hms Hds; vm_compute in Hms, Hds;
    repeat match goal with
           | H : _ \/ _ |- _ => destruct H as [H|H]
           | H : False |- _ => destruct H
           end;
    subst ms ds; reflexivity.
Qed.






Lemma make_date_inv y m d dt :
  Datetime.make_date y m d = Ok dt ->
  dt = Datetime.Date y m d /\ 1 <= y <= 9999 /\ 1 <= m <= 12 /\ 1 <= d <= 31.
Proof.
  unfold Datetime.make_date.
  destruct ((1 <=? y) && (y <=? 9999) && (1 <=? m) && (m <=? 12)
            && (1 <=? d) && (d <=? Datetime.days_in_month y m)) eqn:Hb;
    [|discriminate].
  intros [= <-]. split; [done|].
  repeat (apply andb_true_iff in Hb as [Hb ?]).
  assert (Datetime.days_in_month y m <= 31)
    by (unfold Datetime.days_in_month; repeat case_match; lia).
  lia.
Qed.

Lemma isoformat_spelling (d : Datetime.date) :
  isoformat d
  = zfill4 (Datetime.year d) +:+ "-" +:+ zfill2 (Datetime.month d)
    +:+ "-" +:+ zfill2 (Datetime.day d).
Proof. reflexivity. Qed.


Lemma strptime_isoformat (d : Datetime.date) :
  Datetime.make_date (Datetime.year d) (Datetime.month d) (Datetime.day d)
  = Ok d ->
  Datetime.strptime_date (isoformat d) = Ok d.
Proof.
  intros Hmk. destruct (make_date_inv _ _ _ _ Hmk) as (_ & Hy & Hm & Hd).
  rewrite isoformat_spelling,
    (strptime_spelling _ (Datetime.month d) (Datetime.day d));
    [done|lia|done..| |]; apply list_elem_of_here.
Qed.

(** X16: the [date] filter reads ISO dates.  For every calendar date,
    [strptime] inverts [isoformat], and listing the performances with
    [date] set to the ISO spelling of the date gives the listing without
    the [date] parameter restricted to the performances shown on that
    date (and raises what that listing raises). *)
Theorem X16_date_filter_isoformat
    (st : Store) (query_params : gmap string string) (d : Datetime.date) :
  Datetime.make_date (Datetime.year d) (Datetime.month d) (Datetime.day d)
  = Ok d ->
  Datetime.strptime_date (isoformat d) = Ok d
  /\ PerformanceViewSet.list_ st (<["date" := isoformat d]> query_params)
     = filter (fun r =>
                 Datetime.on (Performance.show_time
                                (PerformanceViewSet.performance r)) = d)
         <$> PerformanceViewSet.list_ st (delete "date" query_params).
Proof.
  intros Hmk. pose proof (strptime_isoformat d Hmk) as Hparse.
  split; [done|].
  unfold PerformanceViewSet.list_, PerformanceViewSet.get_queryset.
  rewrite lookup_insert_eq, lookup_delete_eq.
  rewrite lookup_insert_ne, lookup_delete_ne by done.
  assert (Py.truthy (Some (isoformat d)) = Some (isoformat d)) as -> by done.
  rewrite Hparse. cbn.
  destruct (Py.truthy (query_params !! "play")) as [s|]; cbn; [|done].
  destruct (Py.int s) as [k|e]; cbn; [|done].
  f_equal. rewrite !list_filter_filter. apply list_filter_iff. tauto.
Qed.

Lemma X16_date_filter_isoformat_witness :
  Datetime.strptime_date (isoformat (Datetime.Date 2024 5 1))
  = Ok (Datetime.Date 2024 5 1)
  /\ PerformanceViewSet.list_ scenario_store
       (<["date" := isoformat (Datetime.Date 2024 5 1)]> ∅)
     = filter (fun r =>
                 Datetime.on (Performance.show_time
                                (PerformanceViewSet.performance r))
                 = Datetime.Date 2024 5 1)
         <$> PerformanceViewSet.list_ scenario_store (delete "date" ∅).
Proof.
  apply (X16_date_filter_isoformat scenario_store ∅ (Datetime.Date 2024 5 1)).
  vm_compute. reflexivity.
Defined.

(** *** The upload path of a play's image *)

Lemma filter_chars_forall keep s :
  string_forall (fun c => keep c = true) (Text.filter_chars keep s).
Proof.
  induction s as [|c s IH]; cbn; [done|].
  destruct (keep c) eqn:Hc; cbn; auto.
Qed.

Lemma lower_symbols_chars s :
  string_forall
    (fun c => slug_char c = true \/ Text.is_dash_or_space c = true)
    (Text.drop_symbols (Lookup.lower s)).
Proof.
  unfold Text.drop_symbols.
  induction s as [|c s IH]; cbn [Lookup.lower Text.filter_chars]; [done|].
  destruct (Text.is_word (Lookup.lower_char c)
            || Text.is_dash_or_space (Lookup.lower_char c)) eqn:Hc; [|done].
  split; [|done]. clear IH. revert Hc.
  destruct c as [[] [] [] [] [] [] [] []]; vm_compute; auto.
Qed.

Lemma collapse_runs_chars in_run s :
  string_forall
    (fun c => slug_char c = true \/ Text.is_dash_or_space c = true) s ->
  string_forall (fun c => slug_char c = true) (Text.collapse_runs in_run s).
Proof.
  revert in_run. induction s as [|c s IH]; intros in_run; cbn; [done|].
  intros [Hc Hs].
  destruct (Text.is_dash_or_space c) eqn:Hd.
  - destruct in_run; cbn; auto.
  - cbn. split; [|by apply IH]. by destruct Hc.
Qed.

Lemma lstrip_chars_forall P chars s :
  string_forall P s -> string_forall P (Text.lstrip_chars chars s).
Proof.
  induction s as [|c s IH]; cbn; [done|]. intros [Hc Hs].
  destruct (chars c); cbn; auto.
Qed.

Lemma slugify_chars value :
  string_forall (fun c => slug_char c = true) (Text.slugify value).
Proof.
  unfold Text.slugify, Text.strip_dashes.
  apply rev_onto_forall; [|done]. apply lstrip_chars_forall.
  apply rev_onto_forall; [|done]. apply lstrip_chars_forall.
  apply collapse_runs_chars, lower_symbols_chars.
Qed.

Lemma hex_char_mod (x : N) : uuid_char (Uuid.hex_char (x mod 16)) = true.
Proof.
  assert (x mod 16 < 16)%N as Hlt by (apply N.mod_lt; lia).
  revert Hlt. generalize (x mod 16)%N. intros d Hd.
  rewrite <- (N2Nat.id d). assert (N.to_nat d < 16)%nat as Hm by lia.
  revert Hm. generalize (N.to_nat d). intros m Hm.
  do 16 (destruct m as [|m]; [reflexivity|]). lia.
Qed.

Lemma hex_chars width n :
  string_forall (fun c => uuid_char c = true) (Uuid.hex width n).
Proof.
  revert n. induction width as [|w IH]; intros n; cbn [Uuid.hex]; [done|].
  apply string_forall_app. split; [apply IH|].
  split; [apply hex_char_mod|done].
Qed.

Lemma slice_to_forall P n s :
  string_forall P s -> string_forall P (OsPath.slice_to n s).
Proof.
  revert s. induction n as [|n IH]; intros [|c s]; cbn; try done.
  intros [??]. auto.
Qed.

Lemma slice_from_forall P n s :
  string_forall P s -> string_forall P (OsPath.slice_from n s).
Proof.
  revert s. induction n as [|n IH]; intros [|c s]; cbn; try done.
  intros [??]. auto.
Qed.

Lemma uuid_str_chars int :
  string_forall (fun c => uuid_char c = true) (Uuid.str int).
Proof.
  unfold Uuid.str. pose proof (hex_chars 32 int) as Hh.
  repeat (apply string_forall_app; split);
    repeat first [apply slice_to_forall | apply slice_from_forall];
    first [exact Hh | by split].
Qed.

Lemma rfind_ge c s : -1 <= OsPath.rfind c s.
Proof.
  induction s as [|c' s IH]; cbn; [lia|].
  repeat case_match; lia.
Qed.

Lemma rfind_absent c s :
  string_forall (fun x => x <> c) s -> OsPath.rfind c s = -1.
Proof.
  induction s as [|c' s IH]; cbn; [done|]. intros [Hc Hs].
  rewrite IH by done. cbn.
  destruct (Ascii.eqb_spec c c') as [->|]; [done|done].
Qed.

Lemma rfind_last c (q t : string) :
  string_forall (fun x => x <> c) t ->
  OsPath.rfind c (q +:+ String c t) = Z.of_nat (String.length q).
Proof.
  intros Ht. induction q as [|c' q IH].
  - rewrite string_app_nil_l. cbn. rewrite rfind_absent by done. cbn.
    by rewrite Ascii.eqb_refl.
  - rewrite string_app_cons. cbn [OsPath.rfind String.length]. rewrite IH.
    replace (0 <=? Z.of_nat (String.length q)) with true
      by (symmetry; apply Z.leb_le; lia).
    lia.
Qed.

Lemma slice_from_app (q r : string) :
  OsPath.slice_from (String.length q) (q +:+ r) = r.
Proof.
  induction q as [|c q IH]; [by destruct r|].
  by rewrite string_app_cons.
Qed.

Lemma slice_from_after c (s : string) (i : nat) :
  OsPath.rfind c s < Z.of_nat i ->
  string_forall (fun x => x <> c) (OsPath.slice_from i s).
Proof.
  revert i. induction s as [|c' s IH]; intros i; [by destruct i|].
  cbn [OsPath.rfind]. pose proof (rfind_ge c s).
  destruct i as [|i].
  - destruct (0 <=? OsPath.rfind c s) eqn:Hr; [apply Z.leb_le in Hr; lia|].
    apply Z.leb_gt in Hr.
    destruct (Ascii.eqb_spec c c') as [->|Hne]; [lia|]. intros _.
    split; [congruence|]. apply (IH 0%nat). lia.
  - cbn [OsPath.slice_from]. intros Hlt. apply IH.
    destruct (0 <=? OsPath.rfind c s) eqn:Hr.
    + lia.
    + apply Z.leb_gt in Hr. lia.
Qed.

Lemma slice_from_found c (s : string) :
  0 <= OsPath.rfind c s ->
  exists t, OsPath.slice_from (Z.to_nat (OsPath.rfind c s)) s = String c t
            /\ string_forall (fun x => x <> c) t.
Proof.
  induction s as [|c' s IH]; cbn [OsPath.rfind]; [lia|].
  destruct (0 <=? OsPath.rfind c s) eqn:Hr.
  - apply Z.leb_le in Hr. intros _. destruct (IH Hr) as (t & Ht & Hc).
    exists t. split; [|done].
    replace (Z.to_nat (1 + OsPath.rfind c s))
      with (S (Z.to_nat (OsPath.rfind c s))) by lia.
    done.
  - apply Z.leb_gt in Hr. pose proof (rfind_ge c s).
    destruct (Ascii.eqb_spec c c') as [->|]; [|lia]. intros _.
    exists s. split; [done|]. apply (slice_from_after c' s 0). lia.
Qed.

Lemma skip_leading_dots_ext p dotIndex steps filenameIndex :
  (OsPath.skip_leading_dots p dotIndex steps filenameIndex).2 = ""
  \/ (OsPath.skip_leading_dots p dotIndex steps filenameIndex).2
     = OsPath.slice_from (Z.to_nat dotIndex) p.
Proof.
  revert filenameIndex. induction steps as [|n IH]; intros i; cbn; [by left|].
  case_match; [by right|apply IH].
Qed.

(** The extension that [splitext] returns is empty, or a dot followed by
    characters that are neither dots nor slashes. *)
Lemma splitext_extension p :
  (OsPath.splitext p).2 = ""
  \/ exists t, (OsPath.splitext p).2 = String "." t
               /\ string_forall (fun x => x <> "."%char) t
               /\ string_forall (fun x => x <> "/"%char) t.
Proof.
  unfold OsPath.splitext.
  destruct (OsPath.rfind "/" p <? OsPath.rfind "." p) eqn:Hlt; [|by left].
  apply Z.ltb_lt in Hlt. pose proof (rfind_ge "/" p).
  destruct (skip_leading_dots_ext p (OsPath.rfind "." p)
              (Z.to_nat (OsPath.rfind "." p - (OsPath.rfind "/" p + 1)))
              (OsPath.rfind "/" p + 1)) as [->| ->]; [by left|right].
  destruct (slice_from_found "." p) as (t & Ht & Hdots); [lia|].
  exists t. repeat split; [done..|].
  pose proof (slice_from_after "/" p (Z.to_nat (OsPath.rfind "." p))) as Hs.
  rewrite Ht in Hs. apply Hs. lia.
Qed.

Lemma string_length_app (a b : string) :
  String.length (a +:+ b) = (String.length a + String.length b)%nat.
Proof.
  induction a as [|c a IH]; [done|]. rewrite string_app_cons. cbn. by rewrite IH.
Qed.

Lemma slice_to_app (q r : string) :
  OsPath.slice_to (String.length q) (q +:+ r) = q.
Proof.
  induction q as [|c q IH]; [by destruct r|].
  rewrite string_app_cons. cbn. by rewrite IH.
Qed.

Lemma count_char_app c (a b : string) :
  count_char c (a +:+ b) = (count_char c a + count_char c b)%nat.
Proof.
  induction a as [|x a IH]; [done|]. rewrite string_app_cons. cbn.
  rewrite IH. lia.
Qed.

Lemma count_char_absent c s :
  string_forall (fun x => x <> c) s -> count_char c s = 0%nat.
Proof.
  induction s as [|x s IH]; [done|]. intros [Hx Hs]. cbn.
  rewrite IH by done. by destruct (Ascii.eqb_spec x c).
Qed.

Lemma slug_char_plain c :
  slug_char c = true -> c <> "/"%char /\ c <> "."%char.
Proof. intros Hc. split; intros ->; discriminate. Qed.

Lemma uuid_char_plain c :
  uuid_char c = true -> c <> "/"%char /\ c <> "."%char.
Proof. intros Hc. split; intros ->; discriminate. Qed.

(** The generated file name before its extension: slug, hyphen, UUID. *)
Lemma stem_plain value int :
  string_forall (fun c => c <> "/"%char /\ c <> "."%char)
    (Text.slugify value +:+ "-" +:+ Uuid.str int)
  /\ exists c stem,
       Text.slugify value +:+ "-" +:+ Uuid.str int = String c stem.
Proof.
  split.
  - apply string_forall_app. split.
    + eapply string_forall_impl; [|apply slugify_chars]. apply slug_char_plain.
    + split; [by split|].
      eapply string_forall_impl; [|apply uuid_str_chars]. apply uuid_char_plain.
  - destruct (Text.slugify value) as [|c s]; eauto.
Qed.

Lemma join_uploads name :
  string_forall (fun c => c <> "/"%char) name ->
  OsPath.join "uploads/plays/" name = "uploads/plays/" +:+ name.
Proof.
  intros Hname. unfold OsPath.join.
  destruct name as [|c name]; [done|]. destruct Hname as [Hc _].
  cbn [String.prefix]. destruct (ascii_dec "/" c) as [<-|_]; [done|].
  reflexivity.
Qed.

Lemma file_name_no_slash value int p :
  string_forall (fun c => c <> "/"%char)
    (Text.slugify value +:+ "-" +:+ Uuid.str int +:+ (OsPath.splitext p).2).
Proof.
  destruct (stem_plain value int) as [Hstem _].
  rewrite <- (string_app_assoc _ "-"), <- string_app_assoc,
    (string_app_assoc _ "-").
  apply string_forall_app. split.
  - eapply string_forall_impl; [|exact Hstem]. by intros c [??].
  - destruct (splitext_extension p) as [->|(t & -> & _ & Ht)]; [done|].
    by split.
Qed.

(** X17: an uploaded image always lands directly in [uploads/plays/]:
    whatever the play's title and the uploaded file's name, the path is
    the directory followed by slug, hyphen, UUID and extension, and its
    only slashes are the two of the directory, so neither the title nor
    the file name can add a directory or make the path absolute. *)
Theorem X17_image_path_in_uploads
    (random : N) (instance : Play.t) (filename : string) :
  play_image_file_path random instance filename
  = "uploads/plays/" +:+ Text.slugify (Play.title instance) +:+ "-"
    +:+ Uuid.str (Uuid.uuid4 random) +:+ (OsPath.splitext filename).2
  /\ count_char "/" (play_image_file_path random instance filename) = 2%nat.
Proof.
  unfold play_image_file_path.
  pose proof (file_name_no_slash (Play.title instance) (Uuid.uuid4 random)
                filename) as Hname.
  rewrite join_uploads by done. split; [done|].
  by rewrite count_char_app, (count_char_absent _ _ Hname).
Qed.

(** [splitext] of a path whose last component is a plain stem followed
    by an extension of the shape that [splitext] itself returns. *)
Lemma splitext_stem_extension (c : ascii) (stem ext : string) :
  string_forall (fun x => x <> "/"%char /\ x <> "."%char) (String c stem) ->
  (ext = "" \/ exists t, ext = String "." t
                         /\ string_forall (fun x => x <> "."%char) t
                         /\ string_forall (fun x => x <> "/"%char) t) ->
  OsPath.splitext ("uploads/plays/" +:+ String c stem +:+ ext)
  = ("uploads/plays/" +:+ String c stem, ext).
Proof.
  intros Hstem Hext.
  assert (string_forall (fun x => x <> "/"%char) (String c stem)) as Hslash
    by (eapply string_forall_impl; [|exact Hstem]; by intros x [??]).
  assert (string_forall (fun x => x <> "."%char) (String c stem)) as Hdot
    by (eapply string_forall_impl; [|exact Hstem]; by intros x [??]).
  assert (OsPath.rfind "/" ("uploads/plays/" +:+ String c stem +:+ ext) = 13)
    as Hsep.
  { change ("uploads/plays/" +:+ String c stem +:+ ext)
      with ("uploads/plays" +:+ String "/" (String c stem +:+ ext)).
    rewrite rfind_last; [done|].
    apply string_forall_app. split; [done|].
    destruct Hext as [->|(t & -> & _ & Ht)]; [done|]. by split. }
  unfold OsPath.splitext. rewrite Hsep.
  destruct Hext as [->|(t & -> & Ht & _)].
  - rewrite rfind_absent.
    + cbn [Z.ltb Z.compare]. by rewrite string_app_nil_r.
    + apply string_forall_app. split; [by repeat split|].
      apply string_forall_app. by split.
  - rewrite <- string_app_assoc.
    rewrite rfind_last by done.
    rewrite string_length_app. cbn [String.length].
    replace (13 <? Z.of_nat (14 + S (String.length stem))) with true
      by (symmetry; apply Z.ltb_lt; lia).
    replace (Z.to_nat (Z.of_nat (14 + S (String.length stem)) - (13 + 1)))
      with (S (String.length stem)) by lia.
    cbn [OsPath.skip_leading_dots].
    replace (OsPath.slice_to 1
               (OsPath.slice_from (Z.to_nat (13 + 1))
                  (("uploads/plays/" +:+ String c stem) +:+ String "." t)))
      with (String c "") by done.
    destruct Hdot as [Hc _].
    replace (String.eqb (String c "") ".") with false
      by (symmetry; apply String.eqb_neq; congruence).
    cbn [negb]. rewrite Nat2Z.id.
    replace (14 + S (String.length stem))%nat
      with (String.length ("uploads/plays/" +:+ String c stem))
      by (by rewrite string_length_app).
    by rewrite slice_to_app, slice_from_app.
Qed.

(** X18: the generated path keeps the extension of the uploaded file:
    splitting the path gives back the directory with slug, hyphen and
    UUID as the root, and exactly the extension that [splitext] found in
    the uploaded file's name. *)
Theorem X18_image_path_keeps_extension
    (random : N) (instance : Play.t) (filename : string) :
  OsPath.splitext (play_image_file_path random instance filename)
  = ("uploads/plays/" +:+ Text.slugify (Play.title instance) +:+ "-"
     +:+ Uuid.str (Uuid.uuid4 random),
     (OsPath.splitext filename).2).
Proof.
  unfold play_image_file_path.
  rewrite join_uploads by apply file_name_no_slash.
  destruct (stem_plain (Play.title instance) (Uuid.uuid4 random))
    as [Hstem (c & stem & Heq)].
  rewrite <- (string_app_assoc _ "-" (_ +:+ (OsPath.splitext filename).2)).
  rewrite <- (string_app_assoc _ (Uuid.str _)).
  rewrite (string_app_assoc _ "-" (Uuid.str _)).
  rewrite <- (string_app_assoc _ "-" (Uuid.str _)) at 2.
  rewrite (string_app_assoc _ "-" (Uuid.str _)) at 1.
  rewrite Heq in *.
  apply splitext_stem_extension; [done|apply splitext_extension].
Qed.

Lemma string_app_inj_l (a x y : string) : a +:+ x = a +:+ y -> x = y.
Proof.
  induction a as [|c a IH]; [done|]. rewrite !string_app_cons.
  intros [= H]. auto.
Qed.

Lemma string_app_inj_length (a b x y : string) :
  String.length a = String.length b -> a +:+ x = b +:+ y -> a = b.
Proof.
  revert b. induction a as [|c a IH]; intros [|d b]; try done.
  rewrite !string_app_cons. intros [= Hlen] [= -> Heq]. f_equal. eauto.
Qed.

Lemma string_snoc_inj (a b : string) (c d : ascii) :
  a +:+ String c "" = b +:+ String d "" -> a = b /\ c = d.
Proof.
  revert b. induction a as [|x a IH]; intros [|y b];
    rewrite ?string_app_nil_l, ?string_app_cons.
  - by intros [= ->].
  - intros [= -> H]. by destruct b.
  - intros [= -> H]. by destruct a.
  - intros [= -> H]. destruct (IH _ H) as [-> ->]. done.
Qed.

Lemma hex_char_inj (d d' : N) :
  (d < 16)%N -> (d' < 16)%N ->
  Uuid.hex_char d = Uuid.hex_char d' -> d = d'.
Proof.
  intros Hd Hd'. rewrite <- (N2Nat.id d), <- (N2Nat.id d').
  assert (N.to_nat d < 16)%nat as Hm by lia.
  assert (N.to_nat d' < 16)%nat as Hm' by lia.
  revert Hm Hm'. generalize (N.to_nat d) (N.to_nat d'). clear.
  intros i j Hi Hj.
  cases_below i 16%nat; try (exfalso; lia);
    (cases_below j 16%nat; try (exfalso; lia));
    vm_compute; first [reflexivity | discriminate].
Qed.

Lemma hex_inj width (n n' : N) :
  (n < 16 ^ N.of_nat width)%N -> (n' < 16 ^ N.of_nat width)%N ->
  Uuid.hex width n = Uuid.hex width n' -> n = n'.
Proof.
  revert n n'. induction width as [|w IH]; intros n n' Hn Hn'.
  - cbn in Hn, Hn'. lia.
  - cbn [Uuid.hex]. intros [Hq Hr]%string_snoc_inj.
    rewrite Nat2N.inj_succ, N.pow_succ_r' in Hn, Hn'.
    apply hex_char_inj in Hr; [|apply N.mod_lt; lia..].
    apply IH in Hq; [|apply N.Div0.div_lt_upper_bound; lia..].
    rewrite (N.div_mod n 16), (N.div_mod n' 16) by lia. congruence.
Qed.

Lemma hex_char_not_hyphen (x : N) :
  Ascii.eqb (Uuid.hex_char (x mod 16)) "-" = false.
Proof.
  pose proof (hex_char_mod x) as Hc.
  assert (x mod 16 < 16)%N as Hlt by (apply N.mod_lt; lia).
  revert Hlt. generalize (x mod 16)%N. clear. intros d Hd.
  rewrite <- (N2Nat.id d). assert (N.to_nat d < 16)%nat as Hm by lia.
  revert Hm. generalize (N.to_nat d). intros m Hm.
  do 16 (destruct m as [|m]; [reflexivity|]). lia.
Qed.

Lemma filter_chars_app keep (a b : string) :
  Text.filter_chars keep (a +:+ b)
  = Text.filter_chars keep a +:+ Text.filter_chars keep b.
Proof.
  induction a as [|c a IH]; [done|]. rewrite string_app_cons. cbn.
  rewrite IH. by destruct (keep c).
Qed.

Lemma filter_chars_id keep (s : string) :
  string_forall (fun c => keep c = true) s -> Text.filter_chars keep s = s.
Proof.
  induction s as [|c s IH]; [done|]. intros [Hc Hs]. cbn.
  by rewrite Hc, IH.
Qed.

Lemma slice_split n (s : string) :
  OsPath.slice_to n s +:+ OsPath.slice_from n s = s.
Proof.
  revert s. induction n as [|n IH]; intros [|c s]; try done.
  cbn [OsPath.slice_to OsPath.slice_from]. by rewrite string_app_cons, IH.
Qed.

Lemma slice_from_from a b (s : string) :
  OsPath.slice_from b (OsPath.slice_from a s) = OsPath.slice_from (a + b) s.
Proof.
  revert s. induction a as [|a IH]; intros [|c s]; try done.
  - by destruct b.
  - cbn. apply IH.
Qed.

Lemma hex_no_hyphen width n :
  string_forall (fun c => negb (Ascii.eqb c "-") = true) (Uuid.hex width n).
Proof.
  revert n. induction width as [|w IH]; intros n; cbn [Uuid.hex]; [done|].
  apply string_forall_app. split; [apply IH|].
  split; [|done]. by rewrite hex_char_not_hyphen.
Qed.

(** Removing the hyphens from a UUID's text gives its 32 hexadecimal
    digits back. *)
Lemma uuid_str_hex (int : N) :
  Text.filter_chars (fun c => negb (Ascii.eqb c "-")) (Uuid.str int)
  = Uuid.hex 32 int.
Proof.
  unfold Uuid.str. pose proof (hex_no_hyphen 32 int) as Hh.
  revert Hh. generalize (Uuid.hex 32 int). intros h Hh.
  rewrite !filter_chars_app.
  change (Text.filter_chars (fun c => negb (Ascii.eqb c "-")) "-") with "".
  rewrite !string_app_nil_l.
  rewrite !filter_chars_id
    by (repeat first [exact Hh | apply slice_to_forall
                     | apply slice_from_forall]).
  replace (OsPath.slice_from 20 h)
    with (OsPath.slice_from 4 (OsPath.slice_from 16 h))
    by apply (slice_from_from 16 4).
  rewrite slice_split.
  replace (OsPath.slice_from 16 h)
    with (OsPath.slice_from 4 (OsPath.slice_from 12 h))
    by apply (slice_from_from 12 4).
  rewrite slice_split.
  replace (OsPath.slice_from 12 h)
    with (OsPath.slice_from 4 (OsPath.slice_from 8 h))
    by apply (slice_from_from 8 4).
  rewrite slice_split. apply slice_split.
Qed.

Lemma string_app_inj_r (a b x : string) : a +:+ x = b +:+ x -> a = b.
Proof.
  intros Heq. apply (string_app_inj_length a b x x); [|done].
  apply (f_equal String.length) in Heq. rewrite !string_length_app in Heq. lia.
Qed.

Lemma uuid4_range (int : N) :
  (int < 2 ^ 128)%N -> (Uuid.uuid4 int < 2 ^ 128)%N.
Proof.
  intros Hint.
  assert (forall x, (x < 2 ^ 128)%N <-> N.shiftr x 128 = 0%N) as Hiff.
  { intros x. rewrite N.shiftr_div_pow2. split.
    - intros. by apply N.div_small.
    - intros Hz. apply N.div_small_iff in Hz; [done|]. by vm_compute. }
  apply Hiff in Hint. apply Hiff. unfold Uuid.uuid4. cbv zeta.
  repeat first [rewrite N.shiftr_lor | rewrite N.shiftr_ldiff].
  rewrite Hint. reflexivity.
Qed.

(** X19: the UUID alone keeps the paths apart: for the same play and
    file name, two draws of the 16 random bytes give the same path only
    if they give the same UUID. *)
Theorem X19_image_path_unique
    (random random' : N) (instance : Play.t) (filename : string) :
  (random < 2 ^ 128)%N -> (random' < 2 ^ 128)%N ->
  play_image_file_path random instance filename
  = play_image_file_path random' instance filename ->
  Uuid.uuid4 random = Uuid.uuid4 random'.
Proof.
  intros Hr Hr'. unfold play_image_file_path.
  rewrite !join_uploads by apply file_name_no_slash.
  intros Heq. do 3 apply string_app_inj_l in Heq.
  apply string_app_inj_r in Heq.
  apply (f_equal (Text.filter_chars (fun c => negb (Ascii.eqb c "-")))) in Heq.
  rewrite !uuid_str_hex in Heq.
  apply hex_inj in Heq; [done|by apply uuid4_range..].
Qed.

Lemma X19_image_path_unique_witness :
  Uuid.uuid4 0 = Uuid.uuid4 (2 ^ 62).
Proof.
  apply (X19_image_path_unique 0 (2 ^ 62)
           (Play.Make 1 "King Lear" "A king." None) "poster.png");
    vm_compute; reflexivity.
Defined.

(** *** Detail routes of the plays *)

(** X20: the detail routes of a play look it up through the filtered
    queryset.  With the same query parameters, the lookup raises what the
    listing raises, finds a listed play with the given id when there is
    one, and raises NotFound otherwise; an update whose lookup fails
    raises the same exception and leaves the store untouched. *)
Theorem X20_play_lookup_through_filters
    (st : Store) (query_params : gmap string string) (pk : Z) :
  (forall e,
     PlayViewSet.list_ st query_params = Raise e ->
     PlayViewSet.get_object st query_params pk = Raise e)
  /\ (forall listed,
        PlayViewSet.list_ st query_params = Ok listed ->
        (pk ∉ Play.id <$> listed ->
         PlayViewSet.get_object st query_params pk = Raise NotFound)
        /\ (pk ∈ Play.id <$> listed ->
            exists p,
              PlayViewSet.get_object st query_params pk = Ok p
              /\ p ∈ listed /\ Play.id p = pk))
  /\ (forall e data,
        PlayViewSet.get_object st query_params pk = Raise e ->
        PlayViewSet.update query_params pk data st = (st, Raise e)).
Proof.
  split; [|split].
  - unfold PlayViewSet.list_, PlayViewSet.get_object. intros e ->. reflexivity.
  - unfold PlayViewSet.list_, PlayViewSet.get_object.
    intros listed ->. cbn [mbind Result_bind]. split.
    + intros Hpk. by rewrite (find_not_in Play.id).
    + intros Hpk. destruct (find_in Play.id pk listed Hpk) as [p Hp].
      exists p. rewrite Hp. split; [reflexivity|].
      by apply (find_key Play.id).
  - intros e data Hget. unfold PlayViewSet.update.
    handler_unfold. by rewrite Hget.
Qed.

Lemma X20_play_lookup_witness :
  PlayViewSet.get_object scenario_store {["title" := "aida"]} 1
  = Raise NotFound
  /\ (forall data,
        PlayViewSet.update {["genres" := "1,"]} 1 data scenario_store
        = (scenario_store, Raise ValueError)).
Proof.
  assert (PlayViewSet.list_ scenario_store {["title" := "aida"]}
          = Ok [Play.Make 2 "Aida" "An opera." None]) as Hlist
    by (vm_compute; reflexivity).
  assert (PlayViewSet.get_object scenario_store {["genres" := "1,"]} 1
          = Raise ValueError) as Hbad by (vm_compute; reflexivity).
  split.
  - refine (proj1 (proj1 (proj2 (X20_play_lookup_through_filters scenario_store
                                   {["title" := "aida"]} 1)) _ Hlist) _).
    vm_compute. intros Hin. by apply list_elem_of_singleton in Hin.
  - intros data.
    exact (proj2 (proj2 (X20_play_lookup_through_filters scenario_store
                           {["genres" := "1,"]} 1)) ValueError data Hbad).
Defined.
